(** * SmartApi/webSocket.py: the streaming client and its binary tick decoder

    A shallow embedding of the parts of [SmartApi/webSocket.py] that decode
    inbound frames, send the subscription frames and watch for missing pongs,
    together with the properties the specification states about them.

    Conventions.  Python [bytes] are lists of [byte]; the unsigned integers
    read off the wire are [Z]; offsets and lengths are [nat]; Python floats
    are the kernel's binary64 floats.  A call that can raise returns a
    [result]; code with observable effects (calls on the transport, on the
    user's callbacks, on the reactor) also returns the list of those effects
    in the order they happen. *)

From Stdlib Require Import String.
From Stdlib Require Import ZArith List Bool Lia Floats Uint63.
From Stdlib.Strings Require Import Byte.
Import ListNotations.

Set Implicit Arguments.
Set Warnings "-register-all".

(* ================================================================== *)
(** * Python runtime: exceptions, slices, [struct.unpack], [range]      *)
(* ================================================================== *)

(** The exception classes that the modelled code can meet. *)
Inductive exn : Type :=
| StructError          (* struct.error *)
| NameError            (* NameError / UnboundLocalError *)
| KeyError
| AttributeError
| TypeError
| UnicodeDecodeError
| BinasciiError        (* binascii.Error *)
| ZlibError            (* zlib.error *)
| JSONDecodeError      (* json.JSONDecodeError *)
| ValueError           (* a plain ValueError *)
| RecursionError
| Disconnected.        (* raised by the transport on a send *)

(** [isinstance(e, ValueError)]: [UnicodeDecodeError], [binascii.Error] and
    [json.JSONDecodeError] derive from [ValueError]; [zlib.error] and
    [struct.error] derive from [Exception] directly, and [RecursionError]
    from [RuntimeError]. *)
Definition is_ValueError (e : exn) : bool :=
  match e with
  | UnicodeDecodeError | BinasciiError | JSONDecodeError | ValueError => true
  | _ => false
  end.

Inductive result (A : Type) : Type :=
| Ok (a : A)
| Raise (e : exn).
Arguments Raise {A} e.

Definition bind {A B} (r : result A) (k : A -> result B) : result B :=
  match r with
  | Ok a => k a
  | Raise e => Raise e
  end.

Declare Scope py_scope.
Delimit Scope py_scope with py.
Notation "x <- r ;; k" := (bind r (fun x => k))
  (at level 61, r at next level, right associativity) : py_scope.
Open Scope py_scope.

Definition bytes := list byte.

(** [b[start:stop]] for non-negative indices: out-of-range bounds are clipped. *)
Definition slice (b : bytes) (start stop : nat) : bytes :=
  firstn (stop - start) (skipn start b).

Definition byte_val (b : byte) : Z := Z.of_N (Byte.to_N b).

(** Big-endian unsigned reading of a byte string. *)
Definition be_int (s : bytes) : Z :=
  fold_left (fun acc b => (acc * 256 + byte_val b)%Z) s 0%Z.

Inductive byte_format : Type := fmt_I | fmt_H.

Definition calcsize (f : byte_format) : nat :=
  match f with fmt_I => 4 | fmt_H => 2 end.

(** [struct.unpack(">" + byte_format, s)[0]]: raises [struct.error] unless the
    buffer has exactly the size of the format. *)
Definition struct_unpack (f : byte_format) (s : bytes) : result Z :=
  if length s =? calcsize f then Ok (be_int s) else Raise StructError.

(** [range(start, stop, step)] for a positive step. *)
Definition py_range (start stop step : nat) : list nat :=
  map (fun k => start + k * step) (seq 0 ((stop - start + (step - 1)) / step)).

(** [enumerate(l)] *)
Definition enumerate {A} (l : list A) : list (nat * A) :=
  combine (seq 0 (length l)) l.

(* ================================================================== *)
(** * WebSocket: the binary tick decoder                                *)
(* ================================================================== *)

(** [WebSocket._unpack_int] *)
Definition _unpack_int (bin : bytes) (start stop : nat) (f : byte_format)
  : result Z :=
  struct_unpack f (slice bin start stop).

(** The [for i in range(number_of_packets)] loop of [_split_packets]; [j] is
    the read offset and [packets] the list built so far. *)
Fixpoint split_loop (bin : bytes) (n j : nat) (packets : list bytes)
  : result (list bytes) :=
  match n with
  | O => Ok packets
  | S n' =>
      packet_length <- _unpack_int bin j (j + 2) fmt_H ;;
      let len := Z.to_nat packet_length in
      split_loop bin n' (j + 2 + len)
        (packets ++ [slice bin (j + 2) (j + 2 + len)])
  end.

(** [WebSocket._split_packets] *)
Definition _split_packets (bin : bytes) : result (list bytes) :=
  if length bin <? 2 then Ok []
  else
    number_of_packets <- _unpack_int bin 0 2 fmt_H ;;
    split_loop bin (Z.to_nat number_of_packets) 2 [].

(** ** Decoded values

    A tick is a Python [dict]; the values stored in it are [None], integers,
    [datetime] objects and the depth dictionary.  The depth dictionary
    [{"buy": [], "sell": []}] and its entries
    [{"quantity": .., "price": .., "orders": ..}] have fixed keys and are
    records here. *)

Record depth_entry : Type := mk_entry {
  quantity : Z;
  price : float;
  orders : Z
}.

Record depth : Type := mk_depth {
  buy : list depth_entry;
  sell : list depth_entry
}.

Inductive value : Type :=
| VNone
| VInt (z : Z)
| VDatetime (ts : Z)     (* datetime.fromtimestamp(ts) *)
| VDepth (dp : depth).

(** A [dict] with string keys, in insertion order. *)
Definition dict := list (string * value).

(** [d[k] = v] *)
Fixpoint setitem (d : dict) (k : string) (v : value) : dict :=
  match d with
  | [] => [(k, v)]
  | (k', v') :: r =>
      if String.eqb k' k then (k, v) :: r else (k', v') :: setitem r k v
  end.

(** [d.get(k)] *)
Fixpoint getitem (d : dict) (k : string) : option value :=
  match d with
  | [] => None
  | (k', v') :: r => if String.eqb k' k then Some v' else getitem r k
  end.

(** [WebSocket.EXCHANGE_MAP] *)
Definition EXCHANGE_MAP : list (string * Z) :=
  [("nse", 1); ("nfo", 2); ("cds", 3); ("bse", 4); ("bfo", 5);
   ("bsecds", 6); ("mcx", 7); ("mcxsx", 8); ("indices", 9)]%string%Z.

(** [self.EXCHANGE_MAP[k]] *)
Definition EXCHANGE_MAP_get (k : string) : result Z :=
  match find (fun kv => String.eqb (fst kv) k) EXCHANGE_MAP with
  | Some kv => Ok (snd kv)
  | None => Raise KeyError
  end.

(** Conversion of a Python [int] to [float] in [int / float]; it is exact on
    the unsigned 32-bit values it is applied to. *)
Definition float_of_int (z : Z) : float :=
  PrimFloat.of_uint63 (Uint63.of_Z z).

(** [try: x = datetime.fromtimestamp(self._unpack_int(packet, a, b))
     except Exception: x = None].
    Every exception of [exn] is an [Exception]; [fromtimestamp] is taken to
    accept every unsigned 32-bit number of seconds. *)
Definition try_timestamp (packet : bytes) (a b : nat) : value :=
  match _unpack_int packet a b fmt_I with
  | Ok ts => VDatetime ts
  | Raise _ => VNone
  end.

(** The local variables that the body of the per-packet loop of
    [_parse_binary] has assigned when it reaches its first use of [d]. *)
Record packet_locals : Type := mk_locals {
  instrument_token : Z;
  segment : Z;
  divisor : float;
  tradable : bool;
  last_trade_time : value;
  timestamp : value
}.

(** The loop body of [_parse_binary] up to [timestamp = ...]. *)
Definition packet_header (packet : bytes) : result packet_locals :=
  instrument_token <- _unpack_int packet 0 4 fmt_I ;;
  let segment := Z.land instrument_token 255 in
  cds <- EXCHANGE_MAP_get "cds" ;;
  let divisor := if (segment =? cds)%Z then 10000000%float else 100%float in
  indices <- EXCHANGE_MAP_get "indices" ;;
  let tradable := if (segment =? indices)%Z then false else true in
  let last_trade_time := try_timestamp packet 44 48 in
  let timestamp := try_timestamp packet 60 64 in
  Ok (mk_locals instrument_token segment divisor tradable
        last_trade_time timestamp).

(** The dictionary literal appended by one iteration of the depth loop; its
    items are evaluated in the order written. *)
Definition read_depth_entry (packet : bytes) (divisor : float) (p : nat)
  : result depth_entry :=
  quantity <- _unpack_int packet p (p + 4) fmt_I ;;
  raw_price <- _unpack_int packet (p + 4) (p + 8) fmt_I ;;
  orders <- _unpack_int packet (p + 8) (p + 10) fmt_H ;;
  Ok (mk_entry quantity (float_of_int raw_price / divisor) orders).

(** [depth["sell" if i >= 5 else "buy"].append(e)] *)
Definition depth_append (dp : depth) (i : nat) (e : depth_entry) : depth :=
  if 5 <=? i then mk_depth (buy dp) (sell dp ++ [e])
  else mk_depth (buy dp ++ [e]) (sell dp).

(** [for i, p in enumerate(range(64, len(packet), 12)): ...] *)
Fixpoint depth_loop (packet : bytes) (divisor : float)
    (ips : list (nat * nat)) (dp : depth) : result depth :=
  match ips with
  | [] => Ok dp
  | (i, p) :: rest =>
      e <- read_depth_entry packet divisor p ;;
      depth_loop packet divisor rest (depth_append dp i e)
  end.

(** The market-depth part of the loop body: the literal
    [{"buy": [], "sell": []}] and the loop that fills it. *)
Definition market_depth (packet : bytes) (divisor : float) : result depth :=
  depth_loop packet divisor
    (enumerate (py_range 64 (length packet) 12)) (mk_depth [] []).

(** A read of the name [d].  [_parse_binary] never assigns [d], so the name
    is looked up in the module's globals; [None] stands for the name being
    unbound there. *)
Definition load_d (d : option dict) : result dict :=
  match d with
  | Some v => Ok v
  | None => Raise NameError
  end.

(** The body of [for packet in packets:].  An assignment [d[k] = e] evaluates
    [e], then reads [d], then stores; the dictionary is returned with the
    stores of this iteration done. *)
Definition parse_packet (d : option dict) (packet : bytes) : result dict :=
  h <- packet_header packet ;;
  d0 <- load_d d ;;
  let d1 := setitem d0 "last_trade_time" (last_trade_time h) in
  oi <- _unpack_int packet 48 52 fmt_I ;;
  let d2 := setitem d1 "oi" (VInt oi) in
  oi_day_high <- _unpack_int packet 52 56 fmt_I ;;
  let d3 := setitem d2 "oi_day_high" (VInt oi_day_high) in
  oi_day_low <- _unpack_int packet 56 60 fmt_I ;;
  let d4 := setitem d3 "oi_day_low" (VInt oi_day_low) in
  let d5 := setitem d4 "timestamp" (timestamp h) in
  dp <- market_depth packet (divisor h) ;;
  Ok (setitem d5 "depth" (VDepth dp)).

(** [for packet in packets: ...], threading the object bound to [d]. *)
Fixpoint parse_loop (d : option dict) (packets : list bytes)
  : result (option dict) :=
  match packets with
  | [] => Ok d
  | packet :: rest =>
      d' <- parse_packet d packet ;;
      parse_loop (Some d') rest
  end.

(** [_parse_binary] run in a module whose global [d] is bound as given.
    [data.append(d)] stands after the loop, not in it. *)
Definition _parse_binary_in (d : option dict) (bin : bytes)
  : result (list dict) :=
  packets <- _split_packets bin ;;
  let data := [] in
  d' <- parse_loop d packets ;;
  d'' <- load_d d' ;;
  Ok (data ++ [d'']).

(** [WebSocket._parse_binary]: the module binds no global [d]. *)
Definition _parse_binary (bin : bytes) : result (list dict) :=
  _parse_binary_in None bin.

(* ================================================================== *)
(** * Effects                                                           *)
(* ================================================================== *)

(** JSON values, as [json.loads] builds them. *)
Inductive json : Type :=
| JNull
| JBool (b : bool)
| JInt (z : Z)
| JFloat (f : float)
| JString (s : list N)
| JArray (l : list json)
| JObject (items : list (list N * json)).

(** Decoded text: a Python [str], as its code points. *)
Definition text := list N.

(** The object of a control frame; what goes on the wire is
    [six.b(json.dumps(request))]. *)
Record request : Type := mk_request {
  r_task : string;
  r_channel : string;
  r_token : string;
  r_user : string;
  r_acctid : string
}.

(** What [on_ticks] receives: the tick list of a binary frame or the decoded
    message of a text frame. *)
Inductive tick_data : Type :=
| Ticks (data : list dict)
| Message (data : json).

(** The calls that leave the modelled functions, and the two internal calls
    whose occurrence the specification speaks of. *)
Inductive effect : Type :=
| SendMessage (r : request)              (* self.ws.sendMessage(...) returned *)
| SendClose (e : exn)                    (* self.ws.sendClose(None, reason) *)
| StartHeartBeatThread                   (* threading.Thread(target=self.heartBeat, daemon=True).start() *)
| Print (msg : string)
| Call_on_message (payload : bytes) (is_binary : bool)
| Call_on_ticks (data : tick_data)
| Call_parse_binary (payload : bytes)
| Call_parse_text_message (payload : bytes)
| DropConnection                         (* self.dropConnection(abort=True) *)
| CallLater (delay : float) (f : string). (* self.factory.reactor.callLater(delay, f) *)

(** A computation that performs effects and then returns or raises. *)
Definition run (A : Type) : Type := (list effect * result A)%type.

Definition ret {A} (a : A) : run A := ([], Ok a).

Definition raise {A} (e : exn) : run A := ([], Raise e).

Definition perform (ef : effect) : run unit := ([ef], Ok tt).

Definition lift {A} (r : result A) : run A := ([], r).

Definition bind_run {A B} (m : run A) (k : A -> run B) : run B :=
  match snd m with
  | Ok a => (fst m ++ fst (k a), snd (k a))
  | Raise e => (fst m, Raise e)
  end.

Notation "x <~ m ;; k" := (bind_run m (fun x => k))
  (at level 61, m at next level, right associativity) : py_scope.
Notation "m ;;; k" := (bind_run m (fun _ => k))
  (at level 61, right associativity) : py_scope.

(** [when c: body] *)
Definition when (c : bool) (body : run unit) : run unit :=
  if c then body else ret tt.

(** A library call that signals failure by one exception class. *)
Definition or_raise {A} (e : exn) (o : option A) : result A :=
  match o with
  | Some a => Ok a
  | None => Raise e
  end.

(** The library functions the text decoder calls; [None] is the call
    raising.  [bytes.decode] raises [UnicodeDecodeError] and
    [zlib.decompress] raises [zlib.error]; which exception [base64.b64decode]
    and [json.loads] raise is given by [b64decode_error] and
    [json_loads_error] below.  [json_too_deep] tells whether parsing a text
    exceeds the interpreter's recursion limit. *)
Record codec : Type := mk_codec {
  utf8_decode : bytes -> option text;       (* bytes.decode *)
  utf8_encode : text -> bytes;              (* bytes(s, 'utf-8') *)
  b64decode : text -> option bytes;         (* base64.b64decode *)
  zlib_decompress : bytes -> option bytes;  (* zlib.decompress *)
  json_loads : text -> option json;         (* json.loads *)
  json_dumps : json -> text;                (* json.dumps(data, indent=4, sort_keys=True) *)
  json_too_deep : text -> bool
}.

(** What [base64.b64decode] raises on a text it does not decode: a plain
    [ValueError] when the text has a character outside ASCII (the text is
    first encoded to ASCII), [binascii.Error] otherwise. *)
Definition b64decode_error (s : text) : exn :=
  if forallb (fun c => (c <? 128)%N) s then BinasciiError else ValueError.

(** What [json.loads] raises on a text it does not parse: [RecursionError]
    when the nesting exceeds the recursion limit, [json.JSONDecodeError]
    otherwise. *)
Definition json_loads_error (C : codec) (s : text) : exn :=
  if json_too_deep C s then RecursionError else JSONDecodeError.

(* ================================================================== *)
(** * WebSocket: the client object                                      *)
(* ================================================================== *)

(** A user callback: called, it returns or raises. *)
Definition callback (A : Type) : Type := A -> result unit.

(** The attributes of a [WebSocket] object that the modelled methods read.
    [ws] is the current protocol object, given by what a [sendMessage] on it
    does with a request; [None] is no connection. *)
Record WebSocket : Type := mk_WebSocket {
  task : string;
  feed_token : string;
  client_code : string;
  ws : option (request -> result unit);
  on_message : option (callback (bytes * bool));
  on_ticks : option (callback tick_data)
}.

(** [self.on_ticks(self, data)]; calling [None] is a [TypeError]. *)
Definition call_on_ticks (self : WebSocket) (data : tick_data) : run unit :=
  match on_ticks self with
  | Some f => perform (Call_on_ticks data) ;;; lift (f data)
  | None => raise TypeError
  end.

(** [str.replace] of every apostrophe (39) by a double quote (34). *)
Definition replace_quotes (s : text) : text :=
  map (fun c => if (c =? 39)%N then 34%N else c) s.

(** The [try] block of [_parse_text_message]. *)
Definition text_try_block (C : codec) (data : bytes) : result json :=
  raw <- or_raise ZlibError (zlib_decompress C data) ;;
  s <- or_raise UnicodeDecodeError (utf8_decode C raw) ;;
  let data := utf8_encode C s in
  s' <- or_raise UnicodeDecodeError (utf8_decode C data) ;;
  data <- or_raise (json_loads_error C (replace_quotes s'))
            (json_loads C (replace_quotes s')) ;;
  or_raise (json_loads_error C (json_dumps C data))
    (json_loads C (json_dumps C data)).

(** [WebSocket._parse_text_message], on Python 3 with a [bytes] payload.  The
    value is [true] when the method got past the [try] statement and [false]
    when it returned from the [except ValueError] clause. *)
Definition _parse_text_message (C : codec) (self : WebSocket) (payload : bytes)
  : run bool :=
  s <~ lift (or_raise UnicodeDecodeError (utf8_decode C payload)) ;;
  data <~ lift (or_raise (b64decode_error s) (b64decode C s)) ;;
  match text_try_block C data with
  | Raise e => if is_ValueError e then ret false else raise e
  | Ok data => call_on_ticks self (Message data) ;;; ret true
  end.

(** [WebSocket._on_message] *)
Definition _on_message (C : codec) (self : WebSocket)
    (payload : bytes) (is_binary : bool) : run unit :=
  match on_message self with
  | Some f =>
      perform (Call_on_message payload is_binary) ;;;
      lift (f (payload, is_binary))
  | None => ret tt
  end ;;;
  when (match on_ticks self with Some _ => true | None => false end
        && is_binary && (4 <? length payload))
    (perform (Call_parse_binary payload) ;;;
     data <~ lift (_parse_binary payload) ;;
     call_on_ticks self (Ticks data)) ;;;
  when (negb is_binary)
    (perform (Call_parse_text_message payload) ;;;
     _parse_text_message C self payload ;;; ret tt).

(** What [send_request] returns. *)
Inductive returned : Type := ReturnTrue | ReturnNone.

(** [self.ws.sendMessage(six.b(json.dumps(request)))]; an attribute access on
    [None] is an [AttributeError]. *)
Definition ws_sendMessage (self : WebSocket) (r : request) : run unit :=
  match ws self with
  | Some send => lift (send r) ;;; perform (SendMessage r)
  | None => raise AttributeError
  end.

(** [WebSocket._close(reason=...)], the reason being built from [e]. *)
Definition _close (self : WebSocket) (e : exn) : run unit :=
  match ws self with
  | Some _ => perform (SendClose e)
  | None => ret tt
  end.

Definition connect_request (self : WebSocket) : request :=
  mk_request "cn" "" (feed_token self) (client_code self) (client_code self).

Definition subscribe_request (self : WebSocket) (token : string) : request :=
  mk_request (task self) token
    (feed_token self) (client_code self) (client_code self).

Definition invalid_task_message : string :=
  "The task entered is invalid, Please enter correct task(mw,sfi,dp) ".

Definition valid_tasks : list string := ["mw"; "sfi"; "dp"]%string.

(** The [try] block of [send_request]. *)
Definition send_request_body (self : WebSocket) (token : string)
  : run returned :=
  ws_sendMessage self (connect_request self) ;;;
  ws_sendMessage self (subscribe_request self token) ;;;
  perform StartHeartBeatThread ;;;
  ret ReturnTrue.

(** [WebSocket.send_request] *)
Definition send_request (self : WebSocket) (token : string) : run returned :=
  if existsb (String.eqb (task self)) valid_tasks then
    let body := send_request_body self token in
    match snd body with
    | Ok r => body
    | Raise e => (fst body ++ fst (_close self e), Raise e)
    end
  else
    perform (Print invalid_task_message) ;;; ret ReturnNone.

(** The frames a run has sent, in order. *)
Definition sent_frames (tr : list effect) : list request :=
  flat_map (fun ef => match ef with SendMessage r => [r] | _ => [] end) tr.

(* ================================================================== *)
(** * SmartSocketClientProtocol: ping and pong                          *)
(* ================================================================== *)

Definition PING_INTERVAL : float := 2.5%float.

(** The attributes the pong watchdog reads and writes; the class gives both
    the value [None]. *)
Record SmartSocketClientProtocol : Type := mk_protocol {
  _last_pong_time : option float;
  _last_ping_time : option float
}.

Definition new_protocol : SmartSocketClientProtocol := mk_protocol None None.

(** Truth value of [self._last_pong_time]: [None] and zero are false. *)
Definition truthy (t : option float) : bool :=
  match t with
  | None => false
  | Some x => negb (x =? 0)%float
  end.

(** [onPong], [now] being what [time.time()] returns (logging left out). *)
Definition onPong (self : SmartSocketClientProtocol) (now : float)
  : SmartSocketClientProtocol :=
  mk_protocol (Some now) (_last_ping_time self).

(** [_loop_pong_check], [now] being what [time.time()] returns when it is
    read (logging left out). *)
Definition _loop_pong_check (self : SmartSocketClientProtocol) (now : float)
  : list effect :=
  (if truthy (_last_pong_time self) then
     match _last_pong_time self with
     | Some t =>
         let last_pong_diff := (now - t)%float in
         if (2 * PING_INTERVAL <? last_pong_diff)%float
         then [DropConnection] else []
     | None => []
     end
   else [])
  ++ [CallLater PING_INTERVAL "_loop_pong_check"].

(** What reaches a protocol object after it opened, with the clock reading
    at that moment. *)
Inductive protocol_event : Type :=
| Pong (now : float)
| PongCheck (now : float).

Definition protocol_step (self : SmartSocketClientProtocol)
    (ev : protocol_event) : SmartSocketClientProtocol :=
  match ev with
  | Pong now => onPong self now
  | PongCheck _ => self
  end.

(** The protocol object after a history of events, oldest first. *)
Definition protocol_after (history : list protocol_event)
  : SmartSocketClientProtocol :=
  fold_left protocol_step history new_protocol.

(** The clock reading of the latest pong of a history, if it has one
    (statement side). *)
Fixpoint last_pong (history : list protocol_event) : option float :=
  match history with
  | [] => None
  | ev :: rest =>
      match last_pong rest with
      | Some t => Some t
      | None => match ev with Pong t => Some t | PongCheck _ => None end
      end
  end.

(** No clock reading of a history is zero, the epoch itself. *)
Definition clock_nonzero (history : list protocol_event) : Prop :=
  forall t, In (Pong t) history -> (t =? 0)%float = false.

(* ================================================================== *)
(** * Sample inputs                                                     *)
(* ================================================================== *)

(** The library calls on the empty payload: [b''.decode('utf-8')] is [''],
    [base64.b64decode('')] is [b''] and [zlib.decompress(b'')] raises
    [zlib.error].  On any other input this stand-in raises. *)
Definition empty_payload_codec : codec :=
  mk_codec
    (fun b => match b with [] => Some [] | _ => None end)
    (fun _ => [])
    (fun s => match s with [] => Some [] | _ => None end)
    (fun _ => None)
    (fun _ => None)
    (fun _ => [])
    (fun _ => false).

(** A two-packet frame: count 2, then [01 02 03] and [ff], each behind its
    16-bit length. *)
Definition sample_frame : bytes :=
  [x00; x02; x00; x03; x01; x02; x03; x00; x01; xff].

(** A client with task [t], connected through [conn], whose [on_ticks]
    callback returns. *)
Definition sample_client (t : string) (conn : option (request -> result unit))
  : WebSocket :=
  mk_WebSocket t "feed" "client" conn None (Some (fun _ => Ok tt)).

(** A connection on which every [sendMessage] returns. *)
Definition open_connection : request -> result unit := fun _ => Ok tt.

(* ================================================================== *)
(** * Wire layout of a frame (statement side)                           *)
(* ================================================================== *)

(** [entries body ps]: [body] is the concatenation, for each packet of [ps]
    in order, of its length as a big-endian 16-bit integer and its bytes. *)
Inductive entries : bytes -> list bytes -> Prop :=
| entries_nil : entries [] []
| entries_cons (hi lo : byte) (p rest : bytes) (ps : list bytes) :
    be_int [hi; lo] = Z.of_nat (length p) ->
    entries rest ps ->
    entries (hi :: lo :: p ++ rest) (p :: ps).

(** A frame that is a big-endian 16-bit count [n] followed by exactly [n]
    length-prefixed entries holding the packets [ps]. *)
Definition well_formed_frame (bin : bytes) (n : nat) (ps : list bytes) : Prop :=
  exists hi lo body,
    bin = hi :: lo :: body /\
    be_int [hi; lo] = Z.of_nat n /\
    length ps = n /\
    entries body ps.

(** Offset of the length prefix of the [i]-th packet in the frame. *)
Definition entry_offset (ps : list bytes) (i : nat) : nat :=
  2 + list_sum (map (fun p => 2 + length p) (firstn i ps)).

(** Reading one depth entry at each offset of a list, in order, up to the
    first error (statement side: what the depth loop is compared with). *)
Fixpoint read_entries (packet : bytes) (divisor : float) (ps : list nat)
  : result (list depth_entry) :=
  match ps with
  | [] => Ok []
  | p :: rest =>
      e <- read_depth_entry packet divisor p ;;
      es <- read_entries packet divisor rest ;;
      Ok (e :: es)
  end.

(** A 76-byte packet: [instrument_token] 1 (segment 1, nse), zeros up to the
    depth area, then one depth slot holding quantity 7, raw price 15000 and
    2 orders, padded to 12 bytes. *)
Definition sample_packet : bytes :=
  [x00; x00; x00; x01] ++ repeat x00 60
  ++ [x00; x00; x00; x07; x00; x00; x3a; x98; x00; x02; x00; x00].

(** The dictionary the loop body leaves when it runs on [sample_packet] with
    [d] bound to an empty dictionary. *)
Definition sample_tick : dict :=
  Eval vm_compute in
    match parse_packet (Some []) sample_packet with
    | Ok d => d
    | Raise _ => []
    end.

(** Library stand-ins for three more payloads.  The payload [A] is text that
    [base64.b64decode] rejects; [eJwDAAAAAAE=] is the base64 text of the zlib
    stream of the empty string, which [json.loads] rejects; and
    [eJyLjgUAARUAuQ==] is the base64 text of the zlib stream of the two
    characters of an empty JSON list.  On any other input the stand-in
    raises. *)
Definition ascii_text (s : string) : text :=
  map (fun c => N.of_nat (Ascii.nat_of_ascii c)) (list_ascii_of_string s).

Definition ascii_bytes (s : string) : bytes := list_byte_of_string s.

Definition zlib_of_empty : bytes :=
  [x78; x9c; x03; x00; x00; x00; x00; x01].

Definition zlib_of_brackets : bytes :=
  [x78; x9c; x8b; x8e; x05; x00; x01; x15; x00; xb9].

Definition eqb_bytes (a b : bytes) : bool :=
  if list_eq_dec Byte.byte_eq_dec a b then true else false.

Definition eqb_text (a b : text) : bool :=
  if list_eq_dec N.eq_dec a b then true else false.

Definition sample_codec : codec :=
  mk_codec
    (fun b =>
       if eqb_bytes b (ascii_bytes "A") then Some (ascii_text "A")
       else if eqb_bytes b (ascii_bytes "eJwDAAAAAAE=")
       then Some (ascii_text "eJwDAAAAAAE=")
       else if eqb_bytes b (ascii_bytes "eJyLjgUAARUAuQ==")
       then Some (ascii_text "eJyLjgUAARUAuQ==")
       else if eqb_bytes b [] then Some []
       else if eqb_bytes b (ascii_bytes "[]") then Some (ascii_text "[]")
       else None)
    (fun s => if eqb_text s (ascii_text "[]") then ascii_bytes "[]" else [])
    (fun s =>
       if eqb_text s (ascii_text "eJwDAAAAAAE=") then Some zlib_of_empty
       else if eqb_text s (ascii_text "eJyLjgUAARUAuQ==")
       then Some zlib_of_brackets
       else None)
    (fun b =>
       if eqb_bytes b zlib_of_empty then Some []
       else if eqb_bytes b zlib_of_brackets then Some (ascii_bytes "[]")
       else None)
    (fun s => if eqb_text s (ascii_text "[]") then Some (JArray []) else None)
    (fun j => match j with JArray [] => ascii_text "[]" | _ => [] end)
    (fun _ => false).

(** A text of 1000 opening and 1000 closing brackets, which [json.loads]
    refuses with [RecursionError] under the default recursion limit of
    1000; its zlib stream, and the base64 text of that stream. *)
Definition nested_brackets : bytes := repeat "["%byte 1000 ++ repeat "]"%byte 1000.

Definition zlib_of_nested : bytes :=
  [x78; x9c; x8b; x8e; x1e; x05; xa3; x60; x14; x0c; x77; x10; x3b; x0a;
   x46; xc1; x28; x18; xf6; x00; x00; x6e; xa6; xce; xdf].

Definition base64_of_nested : string := "eJyLjh4Fo2AUDHcQOwpGwSgY9gAAbqbO3w==".

(** Library stand-in for the payload [base64_of_nested]; on any other input
    it raises. *)
Definition nested_codec : codec :=
  mk_codec
    (fun b =>
       if eqb_bytes b (ascii_bytes base64_of_nested)
       then Some (ascii_text base64_of_nested)
       else if eqb_bytes b nested_brackets
       then Some (map (fun c => Z.to_N (byte_val c)) nested_brackets)
       else None)
    (fun s =>
       if eqb_text s (map (fun c => Z.to_N (byte_val c)) nested_brackets)
       then nested_brackets else [])
    (fun s =>
       if eqb_text s (ascii_text base64_of_nested) then Some zlib_of_nested
       else None)
    (fun b => if eqb_bytes b zlib_of_nested then Some nested_brackets else None)
    (fun _ => None)
    (fun _ => [])
    (fun s =>
       eqb_text s (map (fun c => Z.to_N (byte_val c)) nested_brackets)).

(** A 76-byte cds packet: as [sample_packet] with [instrument_token] 3. *)
Definition sample_cds_packet : bytes :=
  [x00; x00; x00; x03] ++ repeat x00 60
  ++ [x00; x00; x00; x07; x00; x00; x3a; x98; x00; x02; x00; x00].

Definition sample_cds_tick : dict :=
  Eval vm_compute in
    match parse_packet (Some []) sample_cds_packet with
    | Ok d => d
    | Raise _ => []
    end.

(** A client without callbacks. *)
Definition bare_client (t : string) (conn : option (request -> result unit))
  : WebSocket :=
  mk_WebSocket t "feed" "client" conn None None.

(* ================================================================== *)
(** * WebSocket: the heartbeat thread, construction, re-opening         *)
(* ================================================================== *)

(** What the heartbeat thread does: an effect of the client, or
    [time.sleep(seconds)]. *)
Inductive thread_effect : Type :=
| Performs (e : effect)
| Sleep (seconds : Z).

Definition heartbeat_request (self : WebSocket) : request :=
  mk_request "hb" "" (feed_token self) (client_code self) (client_code self).

(** [try: body] followed by a bare [except: handler]. *)
Definition try_except_all {A} (body handler : run A) : run A :=
  match snd body with
  | Ok _ => body
  | Raise _ => (fst body ++ fst handler, snd handler)
  end.

(** One turn of the [while True] loop of [heartBeat], the client being
    [self] during the turn. *)
Definition heartBeat_turn (self : WebSocket)
  : list thread_effect * result unit :=
  let attempt :=
    try_except_all (ws_sendMessage self (heartbeat_request self))
      (perform (Print "HeartBeats Failed")) in
  match snd attempt with
  | Ok _ => (map Performs (fst attempt) ++ [Sleep 60], Ok tt)
  | Raise e => (map Performs (fst attempt), Raise e)
  end.

(** The first turns of [heartBeat], given the client as it is at each turn;
    a turn that raises ends the loop. *)
Fixpoint heartBeat (turns : list WebSocket)
  : list thread_effect * result unit :=
  match turns with
  | [] => ([], Ok tt)
  | self :: rest =>
      let t := heartBeat_turn self in
      match snd t with
      | Ok _ => (fst t ++ fst (heartBeat rest), snd (heartBeat rest))
      | Raise e => (fst t, Raise e)
      end
  end.

Definition RECONNECT_MAX_DELAY : Z := 60.
Definition RECONNECT_MAX_TRIES : Z := 50.
Definition CONNECT_TIMEOUT : Z := 30.
Definition _minimum_reconnect_max_delay : Z := 5.
Definition _maximum_reconnect_max_tries : Z := 300.

(** The reconnect attributes that [WebSocket.__init__] sets. *)
Record WebSocket_settings : Type := mk_settings {
  reconnect_max_tries : Z;
  reconnect_max_delay : Z;
  connect_timeout : Z
}.

(** [WebSocket.__init__], for the three numeric arguments (the warnings it
    logs are left out). *)
Definition WebSocket_init (reconnect_max_tries reconnect_max_delay
                             connect_timeout : Z) : WebSocket_settings :=
  mk_settings
    (if (_maximum_reconnect_max_tries <? reconnect_max_tries)%Z
     then _maximum_reconnect_max_tries else reconnect_max_tries)
    (if (reconnect_max_delay <? _minimum_reconnect_max_delay)%Z
     then _minimum_reconnect_max_delay else reconnect_max_delay)
    connect_timeout.

(** The attributes of a [SmartSocketClientFactory] that its methods read:
    the retry counter and bounds of [ReconnectingClientFactory] and whether
    the two reconnect callbacks are set. *)
Record SmartSocketClientFactory : Type := mk_factory {
  retries : Z;
  maxRetries : option Z;
  maxDelay : Z;
  has_on_reconnect : bool;
  has_on_noreconnect : bool
}.

(** [WebSocket._create_connection]: a new factory (counter 0) with the
    private callbacks registered and the two bounds copied. *)
Definition _create_connection (s : WebSocket_settings)
  : SmartSocketClientFactory :=
  mk_factory 0 (Some (reconnect_max_tries s)) (reconnect_max_delay s)
    true true.

Inductive factory_effect : Type :=
| On_reconnect (attempts : Z)   (* self.on_reconnect(self.retries) *)
| Retry                         (* self.retry(connector) *)
| On_noreconnect.               (* self.on_noreconnect() *)

(** [SmartSocketClientFactory.send_noreconnect] *)
Definition send_noreconnect (f : SmartSocketClientFactory)
  : list factory_effect :=
  match maxRetries f with
  | Some m =>
      if (m <? retries f)%Z
      then (if has_on_noreconnect f then [On_noreconnect] else [])
      else []
  | None => []
  end.

(** [SmartSocketClientFactory.clientConnectionLost]; [retry] is what
    [ReconnectingClientFactory.retry] does to the factory. *)
Definition clientConnectionLost
    (retry : SmartSocketClientFactory -> SmartSocketClientFactory)
    (f : SmartSocketClientFactory)
  : SmartSocketClientFactory * list factory_effect :=
  let notify :=
    if (0 <? retries f)%Z
    then (if has_on_reconnect f then [On_reconnect (retries f)] else [])
    else [] in
  let f' := retry f in
  (f', notify ++ [Retry] ++ send_noreconnect f').

(** [SmartSocketClientFactory.clientConnectionFailed] (the error it logs is
    left out). *)
Definition clientConnectionFailed
    (retry : SmartSocketClientFactory -> SmartSocketClientFactory)
    (f : SmartSocketClientFactory)
  : SmartSocketClientFactory * list factory_effect :=
  let notify :=
    if (0 <? retries f)%Z
    then (if has_on_reconnect f then [On_reconnect (retries f)] else [])
    else [] in
  let f' := retry f in
  (f', notify ++ [Retry] ++ send_noreconnect f').

(** The effects of [n] connection losses in a row, one list per loss. *)
Fixpoint losses
    (retry : SmartSocketClientFactory -> SmartSocketClientFactory)
    (n : nat) (f : SmartSocketClientFactory) : list (list factory_effect) :=
  match n with
  | O => []
  | S n' =>
      snd (clientConnectionLost retry f)
      :: losses retry n' (fst (clientConnectionLost retry f))
  end.

(** A [retry] that counts the attempt and leaves the rest. *)
Definition counting_retry (f : SmartSocketClientFactory)
  : SmartSocketClientFactory :=
  mk_factory (retries f + 1) (maxRetries f) (maxDelay f)
    (has_on_reconnect f) (has_on_noreconnect f).

Inductive open_effect : Type :=
| Call_connect      (* self.connect() *)
| Call_on_open.     (* self.on_open(self) *)

(** [WebSocket._on_open]: the flag [_is_first_connect] after the call and
    the calls made. *)
Definition _on_open (_is_first_connect has_on_open : bool)
  : bool * list open_effect :=
  (false,
   (if negb _is_first_connect then [Call_connect] else [])
   ++ (if has_on_open then [Call_on_open] else [])).

(** [n] opens of the connection in a row. *)
Fixpoint opens (n : nat) (_is_first_connect has_on_open : bool)
  : list open_effect :=
  match n with
  | O => []
  | S n' =>
      snd (_on_open _is_first_connect has_on_open)
      ++ opens n' (fst (_on_open _is_first_connect has_on_open)) has_on_open
  end.

(* ================================================================== *)
(** * SmartSocketClientProtocol: opening and closing                    *)
(* ================================================================== *)

(** A protocol object: its two time stamps and whether [_next_ping] and
    [_next_pong_check] hold a delayed call. *)
Record protocol_state : Type := mk_protocol_state {
  stamps : SmartSocketClientProtocol;
  _next_ping : bool;
  _next_pong_check : bool
}.

Inductive protocol_effect : Type :=
| Factory_on_open
| Factory_on_error
| Factory_on_close
| SendPing                     (* self.sendPing(self._ping_message) *)
| Cancel (timer : string)      (* self._next_ping.cancel() *)
| Reactor (e : effect).

(** [_loop_ping], [now] being what [time.time()] returns. *)
Definition _loop_ping (self : protocol_state) (now : float)
  : protocol_state * list protocol_effect :=
  (mk_protocol_state
     (mk_protocol (_last_pong_time (stamps self)) (Some now))
     true (_next_pong_check self),
   [SendPing; Reactor (CallLater PING_INTERVAL "_loop_ping")]).

(** [_loop_pong_check] with the delayed call it stores. *)
Definition pong_check (self : protocol_state) (now : float)
  : protocol_state * list protocol_effect :=
  (mk_protocol_state (stamps self) (_next_ping self) true,
   map Reactor (_loop_pong_check (stamps self) now)).

(** [onOpen]; [t1] and [t2] are the clock readings of the two loops. *)
Definition onOpen (self : protocol_state) (t1 t2 : float)
    (has_on_open : bool) : protocol_state * list protocol_effect :=
  let p1 := _loop_ping self t1 in
  let p2 := pong_check (fst p1) t2 in
  (fst p2,
   snd p1 ++ snd p2 ++ (if has_on_open then [Factory_on_open] else [])).

(** [onClose] *)
Definition onClose (self : protocol_state) (was_clean : bool)
    (has_on_error has_on_close : bool)
  : protocol_state * list protocol_effect :=
  (mk_protocol_state (mk_protocol None None)
     (_next_ping self) (_next_pong_check self),
   (if negb was_clean
    then (if has_on_error then [Factory_on_error] else [])
    else [])
   ++ (if has_on_close then [Factory_on_close] else [])
   ++ (if _next_ping self then [Cancel "_next_ping"] else [])
   ++ (if _next_pong_check self then [Cancel "_next_pong_check"] else [])).

(** How often [self.connect()] is called in a list of calls. *)
Definition connect_calls (l : list open_effect) : nat :=
  length (filter (fun e => match e with Call_connect => true | _ => false end) l).

(* ================================================================== *)
(** * Properties                                                        *)
(* ================================================================== *)

Lemma Ok_inj {A} (a b : A) : Ok a = Ok b -> a = b.
Proof. now intros [= ->]. Qed.

Section Slices.

Lemma slice_app_at (pre x : bytes) (n : nat) :
  slice (pre ++ x) (length pre) (length pre + n) = firstn n x.
Proof.
  unfold slice.
  replace (length pre + n - length pre)%nat with n by lia.
  rewrite skipn_app, skipn_all, Nat.sub_diag. reflexivity.
Qed.

Lemma firstn_exact (p rest : bytes) : firstn (length p) (p ++ rest) = p.
Proof.
  rewrite firstn_app, Nat.sub_diag, firstn_all. simpl. apply app_nil_r.
Qed.

Lemma unpack_H_at (pre : bytes) (hi lo : byte) (rest : bytes) :
  _unpack_int (pre ++ hi :: lo :: rest) (length pre) (length pre + 2) fmt_H
  = Ok (be_int [hi; lo]).
Proof.
  unfold _unpack_int. rewrite slice_app_at. reflexivity.
Qed.

Lemma slice_packet_at (pre : bytes) (hi lo : byte) (p rest : bytes) :
  slice (pre ++ hi :: lo :: p ++ rest)
        (length pre + 2) (length pre + 2 + length p) = p.
Proof.
  replace (pre ++ hi :: lo :: p ++ rest)
    with ((pre ++ [hi; lo]) ++ p ++ rest)
    by (rewrite <- app_assoc; reflexivity).
  replace (length pre + 2)%nat with (length (pre ++ [hi; lo]))
    by (rewrite length_app; reflexivity).
  rewrite slice_app_at. apply firstn_exact.
Qed.

End Slices.

Lemma list_sum_cons (x : nat) (l : list nat) :
  list_sum (x :: l) = (x + list_sum l)%nat.
Proof. reflexivity. Qed.

Lemma split_loop_entries (body : bytes) (ps : list bytes) :
  entries body ps ->
  forall pre acc,
    split_loop (pre ++ body) (length ps) (length pre) acc = Ok (acc ++ ps).
Proof.
  induction 1 as [| hi lo p rest ps Hlen _ IH]; intros pre acc.
  - simpl. now rewrite app_nil_r.
  - cbn [length split_loop].
    rewrite unpack_H_at. cbn [bind].
    rewrite Hlen, Nat2Z.id, slice_packet_at.
    replace (pre ++ hi :: lo :: p ++ rest)
      with ((pre ++ hi :: lo :: p) ++ rest)
      by (rewrite <- app_assoc; reflexivity).
    replace (length pre + 2 + length p)%nat
      with (length (pre ++ hi :: lo :: p))
      by (rewrite length_app; simpl; lia).
    rewrite IH, <- app_assoc. reflexivity.
Qed.

Lemma entries_length (body : bytes) (ps : list bytes) :
  entries body ps ->
  length body = list_sum (map (fun p => 2 + length p) ps).
Proof.
  induction 1 as [| hi lo p rest ps _ _ IH]; [reflexivity |].
  cbn [length map]; rewrite list_sum_cons. rewrite length_app, IH. lia.
Qed.

Lemma list_sum_prefixed (ps : list bytes) :
  list_sum (map (fun p => 2 + length p) ps)
  = (2 * length ps + list_sum (map (@length byte) ps))%nat.
Proof.
  induction ps as [| p ps IH]; [reflexivity |].
  cbn [length map]. rewrite !list_sum_cons, IH. lia.
Qed.

Lemma entries_positions (body : bytes) (ps : list bytes) :
  entries body ps ->
  forall pre i p,
    nth_error ps i = Some p ->
    let j := (length pre
              + list_sum (map (fun q => 2 + length q) (firstn i ps)))%nat in
    _unpack_int (pre ++ body) j (j + 2) fmt_H = Ok (Z.of_nat (length p)) /\
    slice (pre ++ body) (j + 2) (j + 2 + length p) = p.
Proof.
  induction 1 as [| hi lo q rest ps Hlen _ IH]; intros pre i p Hi.
  - destruct i; discriminate.
  - destruct i as [| i].
    + injection Hi as <-. cbn [firstn map]. change (list_sum []) with 0%nat.
      cbv zeta. rewrite Nat.add_0_r, unpack_H_at, Hlen, slice_packet_at. auto.
    + cbn [nth_error] in Hi.
      specialize (IH (pre ++ hi :: lo :: q) i p Hi). cbv zeta in IH |- *.
      rewrite <- app_assoc in IH. cbn [app] in IH.
      replace (length (pre ++ hi :: lo :: q)) with (length pre + (2 + length q))%nat
        in IH by (rewrite length_app; reflexivity).
      cbn [firstn map]; rewrite list_sum_cons.
      rewrite Nat.add_assoc. exact IH.
Qed.

(** C3.  A frame made of a big-endian 16-bit count [n] followed by exactly [n]
    length-prefixed entries is split into exactly the [n] packets it holds;
    the [i]-th packet is the slice that starts right after its own 16-bit
    length prefix and has the length that prefix gives; and the packet lengths
    sum to [len(frame) - 2 - 2 n], so the split consumes the whole frame. *)
Theorem split_packets_well_formed (bin : bytes) (n : nat) (ps : list bytes) :
  well_formed_frame bin n ps ->
  _split_packets bin = Ok ps /\
  length ps = n /\
  (forall i p, nth_error ps i = Some p ->
     let j := entry_offset ps i in
     _unpack_int bin j (j + 2) fmt_H = Ok (Z.of_nat (length p)) /\
     slice bin (j + 2) (j + 2 + length p) = p) /\
  Z.of_nat (list_sum (map (@length byte) ps))
  = (Z.of_nat (length bin) - 2 - 2 * Z.of_nat n)%Z.
Proof.
  intros (hi & lo & body & -> & Hn & Hlen & Hent).
  repeat split.
  - unfold _split_packets. cbn [length Nat.ltb Nat.leb].
    change (_unpack_int (hi :: lo :: body) 0 2 fmt_H)
      with (Ok (be_int [hi; lo])).
    cbn [bind]. rewrite Hn, Nat2Z.id, <- Hlen.
    apply (split_loop_entries Hent [hi; lo] []).
  - exact Hlen.
  - apply (entries_positions Hent [hi; lo] _ H).
  - apply (entries_positions Hent [hi; lo] _ H).
  - cbn [length]. rewrite (entries_length Hent), list_sum_prefixed. lia.
Qed.

Lemma sample_frame_well_formed :
  well_formed_frame sample_frame 2 [[x01; x02; x03]; [xff]].
Proof.
  exists x00, x02, [x00; x03; x01; x02; x03; x00; x01; xff].
  repeat split.
  apply (@entries_cons x00 x03 [x01; x02; x03] [x00; x01; xff] [[xff]]);
    [reflexivity |].
  apply (@entries_cons x00 x01 [xff] [] []); [reflexivity |].
  apply entries_nil.
Defined.

Lemma split_packets_well_formed_witness :
  well_formed_frame sample_frame 2 [[x01; x02; x03]; [xff]] /\
  _split_packets sample_frame = Ok [[x01; x02; x03]; [xff]].
Proof.
  split; [exact sample_frame_well_formed |].
  exact (proj1 (split_packets_well_formed sample_frame_well_formed)).
Defined.

(* ------------------------------------------------------------------ *)
(** ** The per-packet header                                           *)
(* ------------------------------------------------------------------ *)

Lemma byte_val_range (b : byte) : (0 <= byte_val b < 256)%Z.
Proof.
  unfold byte_val. pose proof (Byte.to_N_bounded b). lia.
Qed.

Lemma unpack_I_head (packet : bytes) :
  _unpack_int packet 0 4 fmt_I
  = if length packet <? 4 then Raise StructError
    else Ok (be_int (firstn 4 packet)).
Proof.
  unfold _unpack_int, struct_unpack, slice. cbn [skipn Nat.sub calcsize].
  rewrite length_firstn.
  destruct (Nat.ltb_spec (length packet) 4) as [Hlt | Hge].
  - replace (Nat.min 4 (length packet)) with (length packet) by lia.
    destruct (Nat.eqb_spec (length packet) 4); [lia | reflexivity].
  - replace (Nat.min 4 (length packet)) with 4%nat by lia. reflexivity.
Qed.

Lemma land_low_byte (hi : Z) (b : byte) :
  Z.land (hi * 256 + byte_val b) 255 = byte_val b.
Proof.
  change 255%Z with (Z.ones 8). rewrite Z.land_ones by lia.
  change (2 ^ 8)%Z with 256%Z.
  rewrite Z.add_comm, Z.mod_add by lia.
  apply Z.mod_small, byte_val_range.
Qed.

Lemma packet_header_eq (packet : bytes) :
  packet_header packet
  = if length packet <? 4 then Raise StructError
    else
      let token := be_int (firstn 4 packet) in
      let seg := Z.land token 255 in
      Ok (mk_locals token seg
            (if (seg =? 3)%Z then 10000000%float else 100%float)
            (if (seg =? 9)%Z then false else true)
            (try_timestamp packet 44 48) (try_timestamp packet 60 64)).
Proof.
  unfold packet_header. rewrite unpack_I_head.
  destruct (length packet <? 4); reflexivity.
Qed.

(** C5.  A packet of at least 4 bytes gets its header decoded, with
    [instrument_token] the big-endian unsigned 32-bit integer at bytes [0,4),
    [segment] its low byte (the byte at index 3), and [tradable] false exactly
    when [segment] is 9 and true for every other segment. *)
Theorem tradable_false_iff_indices (packet : bytes) :
  4 <= length packet ->
  exists h,
    packet_header packet = Ok h /\
    _unpack_int packet 0 4 fmt_I = Ok (instrument_token h) /\
    segment h = Z.land (instrument_token h) 255 /\
    segment h = byte_val (nth 3 packet x00) /\
    (tradable h = false <-> segment h = 9%Z) /\
    (tradable h = true <-> segment h <> 9%Z).
Proof.
  intros Hlen. rewrite packet_header_eq, unpack_I_head.
  destruct (Nat.ltb_spec (length packet) 4) as [Hlt | _]; [lia |].
  eexists; split; [reflexivity |]. cbn [instrument_token segment tradable].
  split; [reflexivity |]. split; [reflexivity |].
  destruct packet as [| a [| b [| c [| d rest]]]]; cbn [length] in Hlen; try lia.
  cbn [firstn nth]. unfold be_int. cbn [fold_left].
  rewrite land_low_byte.
  destruct (Z.eqb_spec (byte_val d) 9) as [-> | Hne]; repeat split;
    intros; try reflexivity; try discriminate; try lia; try assumption.
Qed.

Lemma tradable_false_iff_indices_witness :
  4 <= length [x00; x00; x01; x09] /\
  exists h,
    packet_header [x00; x00; x01; x09] = Ok h /\
    segment h = 9%Z /\ tradable h = false.
Proof.
  assert (Hlen : 4 <= length [x00; x00; x01; x09]) by (simpl; lia).
  split; [exact Hlen |].
  destruct (tradable_false_iff_indices [x00; x00; x01; x09] Hlen)
    as (h & Hh & _ & _ & Hseg & Hfalse & _).
  exists h. split; [exact Hh |].
  assert (H9 : segment h = 9%Z) by (rewrite Hseg; reflexivity).
  split; [exact H9 | exact (proj2 Hfalse H9)].
Defined.

(* ------------------------------------------------------------------ *)
(** ** [_parse_binary] as the module stands                            *)
(* ------------------------------------------------------------------ *)

Lemma parse_packet_unbound (packet : bytes) :
  parse_packet None packet
  = if length packet <? 4 then Raise StructError else Raise NameError.
Proof.
  unfold parse_packet. rewrite packet_header_eq.
  destruct (length packet <? 4); reflexivity.
Qed.

Lemma parse_binary_eq (bin : bytes) :
  _parse_binary bin
  = match _split_packets bin with
    | Raise e => Raise e
    | Ok [] => Raise NameError
    | Ok (packet :: _) =>
        if length packet <? 4 then Raise StructError else Raise NameError
    end.
Proof.
  unfold _parse_binary, _parse_binary_in.
  destruct (_split_packets bin) as [[| packet rest] | e]; cbn [bind];
    try reflexivity.
  cbn [parse_loop]. rewrite parse_packet_unbound.
  destruct (length packet <? 4); reflexivity.
Qed.

(** C1 (as the code has it).  [_parse_binary] never returns a tick list, on
    any frame.  It raises [NameError] at the final [data.append(d)] when the
    frame splits into no packet, and at the first store into [d] when the
    first packet has at least 4 bytes; it raises [struct.error] before any
    read of [d] when the splitter reads past the end of the frame or when the
    first packet is shorter than the 4 bytes of [instrument_token]. *)
Theorem parse_binary_never_returns (bin : bytes) :
  (forall ticks, _parse_binary bin <> Ok ticks) /\
  _parse_binary bin
  = match _split_packets bin with
    | Raise e => Raise e
    | Ok [] => Raise NameError
    | Ok (packet :: _) =>
        if length packet <? 4 then Raise StructError else Raise NameError
    end.
Proof.
  split; [| apply parse_binary_eq].
  intros ticks. rewrite parse_binary_eq.
  destruct (_split_packets bin) as [[| packet rest] | e]; try discriminate.
  destruct (length packet <? 4); discriminate.
Qed.

(** A frame announcing one packet and ending there, and a frame whose only
    packet is empty, raise [struct.error], not [NameError]. *)
Lemma parse_binary_struct_error :
  _parse_binary [x00; x01] = Raise StructError /\
  _parse_binary [x00; x01; x00; x00] = Raise StructError /\
  _parse_binary [x00; x01] <> Raise NameError.
Proof.
  repeat split; try reflexivity. discriminate.
Qed.

(** The specification's one-packet scenario: the frame is split and decoded
    into one tick when a dictionary is bound to [d], and raises as the module
    stands. *)
Lemma sample_packet_frame :
  _split_packets ([x00; x01; x00; x4c] ++ sample_packet) = Ok [sample_packet] /\
  _parse_binary_in (Some []) ([x00; x01; x00; x4c] ++ sample_packet)
  = Ok [sample_tick] /\
  _parse_binary ([x00; x01; x00; x4c] ++ sample_packet) = Raise NameError.
Proof.
  repeat split; reflexivity.
Qed.

(** C2 (what the code does).  On a frame shorter than 2 bytes the splitter
    returns no packet, and [_parse_binary] then raises [NameError] at
    [data.append(d)] instead of returning the empty list. *)
Theorem parse_binary_short_frame (bin : bytes) :
  length bin < 2 ->
  _split_packets bin = Ok [] /\
  _parse_binary bin = Raise NameError /\
  _parse_binary bin <> Ok [].
Proof.
  intros Hlen.
  assert (Hsplit : _split_packets bin = Ok []).
  { unfold _split_packets.
    destruct (Nat.ltb_spec (length bin) 2); [reflexivity | lia]. }
  split; [exact Hsplit |].
  rewrite parse_binary_eq, Hsplit. split; [reflexivity | discriminate].
Qed.

Lemma parse_binary_short_frame_witness :
  length (@nil byte) < 2 /\ _parse_binary [] = Raise NameError.
Proof.
  assert (Hlen : length (@nil byte) < 2) by (simpl; lia).
  split; [exact Hlen |].
  exact (proj1 (proj2 (parse_binary_short_frame [] Hlen))).
Defined.

(* ------------------------------------------------------------------ *)
(** ** The market-depth loop                                           *)
(* ------------------------------------------------------------------ *)

Section Depth.

Variable packet : bytes.
Variable divisor : float.

Lemma slice_length (b : bytes) (start stop : nat) :
  length (slice b start stop) = Nat.min (stop - start) (length b - start).
Proof.
  unfold slice. now rewrite length_firstn, length_skipn.
Qed.

Lemma unpack_int_in_range (start stop : nat) (f : byte_format) :
  (stop - start = calcsize f)%nat -> stop <= length packet ->
  _unpack_int packet start stop f = Ok (be_int (slice packet start stop)).
Proof.
  intros Hsize Hstop. unfold _unpack_int, struct_unpack.
  rewrite slice_length.
  replace (Nat.min (stop - start) (length packet - start)) with (calcsize f)
    by (destruct f; cbn [calcsize] in *; lia).
  now rewrite Nat.eqb_refl.
Qed.

Lemma unpack_int_past_end (start stop : nat) (f : byte_format) :
  (stop - start = calcsize f)%nat -> length packet < stop ->
  _unpack_int packet start stop f = Raise StructError.
Proof.
  intros Hsize Hstop. unfold _unpack_int, struct_unpack.
  rewrite slice_length.
  destruct (Nat.eqb_spec (Nat.min (stop - start) (length packet - start))
              (calcsize f)) as [Heq | _]; [| reflexivity].
  destruct f; cbn [calcsize] in *; lia.
Qed.

Lemma read_depth_entry_in_range (p : nat) :
  p + 10 <= length packet ->
  read_depth_entry packet divisor p
  = Ok (mk_entry (be_int (slice packet p (p + 4)))
          (float_of_int (be_int (slice packet (p + 4) (p + 8))) / divisor)
          (be_int (slice packet (p + 8) (p + 10)))).
Proof.
  intros Hp. unfold read_depth_entry.
  rewrite !unpack_int_in_range by (cbn [calcsize]; lia). reflexivity.
Qed.

Lemma read_depth_entry_past_end (p : nat) :
  length packet < p + 10 ->
  read_depth_entry packet divisor p = Raise StructError.
Proof.
  intros Hp. unfold read_depth_entry.
  destruct (Nat.le_gt_cases (p + 4) (length packet)) as [H4 | H4];
    [| now rewrite unpack_int_past_end by (cbn [calcsize]; lia)].
  rewrite (@unpack_int_in_range p) by (cbn [calcsize]; lia). cbn [bind].
  destruct (Nat.le_gt_cases (p + 8) (length packet)) as [H8 | H8];
    [| now rewrite unpack_int_past_end by (cbn [calcsize]; lia)].
  rewrite (@unpack_int_in_range (p + 4)) by (cbn [calcsize]; lia).
  cbn [bind].
  now rewrite unpack_int_past_end by (cbn [calcsize]; lia).
Qed.

Lemma read_depth_entry_price (p : nat) (e : depth_entry) :
  read_depth_entry packet divisor p = Ok e ->
  exists raw,
    _unpack_int packet (p + 4) (p + 8) fmt_I = Ok raw /\
    price e = (float_of_int raw / divisor)%float.
Proof.
  unfold read_depth_entry.
  destruct (_unpack_int packet p (p + 4) fmt_I) as [q |]; [| discriminate].
  destruct (_unpack_int packet (p + 4) (p + 8) fmt_I) as [raw |];
    [| discriminate].
  destruct (_unpack_int packet (p + 8) (p + 10) fmt_H) as [o |];
    [| discriminate].
  cbn [bind]. intros [= <-]. exists raw. split; reflexivity.
Qed.

Lemma depth_append_split (pre : list depth_entry) (e : depth_entry) :
  depth_append (mk_depth (firstn 5 pre) (skipn 5 pre)) (length pre) e
  = mk_depth (firstn 5 (pre ++ [e])) (skipn 5 (pre ++ [e])).
Proof.
  unfold depth_append. cbn [buy sell].
  rewrite firstn_app, skipn_app.
  destruct (Nat.leb_spec 5 (length pre)) as [Hge | Hlt].
  - replace (5 - length pre)%nat with 0%nat by lia.
    cbn [firstn skipn]. now rewrite app_nil_r.
  - rewrite (@firstn_all2 _ 5 pre) by lia.
    rewrite (@skipn_all2 _ 5 pre) by lia.
    destruct (5 - length pre)%nat as [| k] eqn:Hk; [lia |].
    cbn [firstn skipn app]. now destruct k.
Qed.

Lemma depth_loop_read_entries (ps : list nat) :
  forall pre,
    depth_loop packet divisor (combine (seq (length pre) (length ps)) ps)
      (mk_depth (firstn 5 pre) (skipn 5 pre))
    = es <- read_entries packet divisor ps ;;
      Ok (mk_depth (firstn 5 (pre ++ es)) (skipn 5 (pre ++ es))).
Proof.
  induction ps as [| p ps IH]; intros pre.
  - cbn. now rewrite app_nil_r.
  - cbn [length seq combine depth_loop read_entries].
    destruct (read_depth_entry packet divisor p) as [e | err];
      cbn [bind]; [| reflexivity].
    rewrite depth_append_split.
    replace (S (length pre)) with (length (pre ++ [e]))
      by (rewrite length_app; cbn [length]; lia).
    rewrite IH.
    destruct (read_entries packet divisor ps) as [es | err];
      cbn [bind]; [| reflexivity].
    now rewrite <- app_assoc.
Qed.

Lemma market_depth_eq :
  market_depth packet divisor
  = es <- read_entries packet divisor (py_range 64 (length packet) 12) ;;
    Ok (mk_depth (firstn 5 es) (skipn 5 es)).
Proof.
  unfold market_depth, enumerate.
  apply (depth_loop_read_entries (py_range 64 (length packet) 12) []).
Qed.

Lemma read_entries_nth (ps : list nat) :
  forall es,
    read_entries packet divisor ps = Ok es ->
    length es = length ps /\
    forall i e, nth_error es i = Some e ->
      exists p, nth_error ps i = Some p /\
                read_depth_entry packet divisor p = Ok e.
Proof.
  induction ps as [| p ps IH]; intros es.
  - cbn. intros [= <-]. split; [reflexivity |].
    intros [| i] e; discriminate.
  - cbn [read_entries].
    destruct (read_depth_entry packet divisor p) as [e0 |] eqn:He0;
      [| discriminate].
    destruct (read_entries packet divisor ps) as [es0 |]; [| discriminate].
    cbn [bind]. intros [= <-].
    destruct (IH es0 eq_refl) as [Hlen Hnth].
    split; [cbn [length]; now rewrite Hlen |].
    intros [| i] e; cbn [nth_error].
    + intros [= <-]. now exists p.
    + apply Hnth.
Qed.

Lemma read_entries_total (ps : list nat) :
  (forall p, In p ps -> p + 10 <= length packet) ->
  exists es, read_entries packet divisor ps = Ok es.
Proof.
  induction ps as [| p ps IH]; intros Hall; [now exists [] |].
  cbn [read_entries].
  rewrite read_depth_entry_in_range by (apply Hall; now left).
  destruct IH as [es Hes]; [intros q Hq; apply Hall; now right |].
  rewrite Hes. cbn [bind]. eauto.
Qed.

Lemma read_entries_in_range (ps : list nat) (es : list depth_entry) :
  read_entries packet divisor ps = Ok es ->
  forall p, In p ps -> p + 10 <= length packet.
Proof.
  revert es. induction ps as [| q ps IH]; intros es Hes p Hin;
    [destruct Hin |].
  cbn [read_entries] in Hes.
  destruct (Nat.le_gt_cases (q + 10) (length packet)) as [Hq | Hq];
    [| now rewrite read_depth_entry_past_end in Hes].
  destruct (read_depth_entry packet divisor q); [| discriminate].
  destruct (read_entries packet divisor ps) as [es0 |] eqn:Hes0;
    [| discriminate].
  destruct Hin as [<- | Hin]; [exact Hq | exact (IH es0 eq_refl p Hin)].
Qed.

End Depth.

Lemma depth_range_count (n i : nat) :
  i < (n - 64 + (12 - 1)) / 12 <-> 64 + 12 * i < n.
Proof.
  cbn [Nat.sub]. split; intros H.
  - destruct (Nat.le_gt_cases n (64 + 12 * i)) as [Hle | Hgt]; [| exact Hgt].
    exfalso.
    assert ((n - 64 + 11) / 12 < S i)
      by (apply Nat.Div0.div_lt_upper_bound; lia).
    lia.
  - assert (S i <= (n - 64 + 11) / 12)
      by (apply Nat.div_le_lower_bound; lia).
    lia.
Qed.

Lemma depth_range_nth (n i : nat) :
  nth_error (py_range 64 n 12) i
  = if 64 + 12 * i <? n then Some (64 + 12 * i) else None.
Proof.
  unfold py_range.
  destruct (Nat.ltb_spec (64 + 12 * i) n) as [Hlt | Hge].
  - apply depth_range_count in Hlt.
    rewrite nth_error_map, nth_error_seq.
    destruct (Nat.ltb_spec i ((n - 64 + (12 - 1)) / 12)); [| lia].
    cbn [option_map]. f_equal. lia.
  - apply nth_error_None. rewrite length_map, length_seq.
    destruct (Nat.le_gt_cases ((n - 64 + (12 - 1)) / 12) i) as [H | H];
      [exact H |].
    apply depth_range_count in H. lia.
Qed.

Lemma depth_range_length (n : nat) :
  forall i, i < length (py_range 64 n 12) <-> 64 + 12 * i < n.
Proof.
  intros i. unfold py_range. rewrite length_map, length_seq.
  apply depth_range_count.
Qed.

Lemma depth_range_In (n p : nat) :
  In p (py_range 64 n 12) <-> exists i, p = 64 + 12 * i /\ p < n.
Proof.
  split.
  - intros Hin. apply In_nth_error in Hin. destruct Hin as [i Hi].
    rewrite depth_range_nth in Hi.
    destruct (Nat.ltb_spec (64 + 12 * i) n) as [Hlt | _]; [| discriminate].
    injection Hi as <-. exists i. split; [reflexivity | exact Hlt].
  - intros (i & -> & Hlt). apply nth_error_In with (n := i).
    rewrite depth_range_nth.
    destruct (Nat.ltb_spec (64 + 12 * i) n); [reflexivity | lia].
Qed.

Lemma firstn_skipn_of_split (es : list depth_entry) :
  firstn 5 es ++ skipn 5 es = es.
Proof. apply firstn_skipn. Qed.

Lemma market_depth_entries (packet : bytes) (divisor : float) (dp : depth) :
  market_depth packet divisor = Ok dp ->
  buy dp = firstn 5 (buy dp ++ sell dp) /\
  sell dp = skipn 5 (buy dp ++ sell dp) /\
  (forall i, i < length (buy dp ++ sell dp)
             <-> 64 + 12 * i < length packet) /\
  (forall i e, nth_error (buy dp ++ sell dp) i = Some e ->
     read_depth_entry packet divisor (64 + 12 * i) = Ok e).
Proof.
  rewrite market_depth_eq. intros Hdp.
  destruct (read_entries packet divisor (py_range 64 (length packet) 12))
    as [es |] eqn:Hes; [| discriminate].
  cbn [bind] in Hdp. apply Ok_inj in Hdp. subst dp. cbn [buy sell].
  rewrite firstn_skipn_of_split.
  destruct (@read_entries_nth _ _ _ _ Hes) as [Hlen Hnth].
  repeat split; try (rewrite Hlen; apply depth_range_length).
  intros i e Hi. destruct (Hnth i e Hi) as (p & Hp & Hread).
  rewrite depth_range_nth in Hp.
  destruct (64 + 12 * i <? length packet); [| discriminate].
  now injection Hp as <-.
Qed.

(** C6 (as the code has it).  The depth loop reads one entry at each offset
    p = 64, 76, 88, ... with p < len(packet); the first five entries read go
    to [buy] and the later ones to [sell], in wire order.  The loop returns
    exactly when each of those offsets has its 10 bytes inside the packet
    (a [struct.error] is raised otherwise); a packet of at most 64 bytes
    yields empty [buy] and [sell] lists. *)
Theorem market_depth_layout (packet : bytes) (divisor : float) :
  (forall dp, market_depth packet divisor = Ok dp ->
     buy dp = firstn 5 (buy dp ++ sell dp) /\
     sell dp = skipn 5 (buy dp ++ sell dp) /\
     (forall i, i < length (buy dp ++ sell dp)
                <-> 64 + 12 * i < length packet) /\
     (forall i e, nth_error (buy dp ++ sell dp) i = Some e ->
        read_depth_entry packet divisor (64 + 12 * i) = Ok e)) /\
  ((exists dp, market_depth packet divisor = Ok dp) <->
   (forall i, 64 + 12 * i < length packet ->
              64 + 12 * i + 10 <= length packet)) /\
  (length packet <= 64 -> market_depth packet divisor = Ok (mk_depth [] [])).
Proof.
  split; [exact (@market_depth_entries packet divisor) |].
  rewrite market_depth_eq. split.
  - split.
    + intros [dp Hdp] i Hi.
      destruct (read_entries packet divisor (py_range 64 (length packet) 12))
        as [es |] eqn:Hes; [| discriminate].
      apply (@read_entries_in_range _ _ _ _ Hes).
      apply depth_range_In. eauto.
    + intros Hall.
      destruct (@read_entries_total packet divisor
                  (py_range 64 (length packet) 12)) as [es Hes].
      * intros p Hp. apply depth_range_In in Hp.
        destruct Hp as (i & -> & Hlt). now apply Hall.
      * rewrite Hes. cbn [bind]. eauto.
  - intros Hshort. unfold py_range.
    replace (length packet - 64)%nat with 0%nat by lia. reflexivity.
Qed.

(** A 74-byte packet yields one depth entry although 64 + 12 > 74, and a
    70-byte packet makes the loop raise: both are shorter than 76 bytes. *)
Lemma market_depth_short_packet :
  length (repeat x00 74) < 76 /\
  market_depth (repeat x00 74) 100 = Ok (mk_depth [mk_entry 0 0 0] []) /\
  length (repeat x00 70) < 76 /\
  market_depth (repeat x00 70) 100 = Raise StructError.
Proof.
  repeat split; try reflexivity; rewrite repeat_length; lia.
Qed.

(* ------------------------------------------------------------------ *)
(** ** Prices                                                          *)
(* ------------------------------------------------------------------ *)

Lemma getitem_setitem (d : dict) (k : string) (v : value) :
  getitem (setitem d k v) k = Some v.
Proof.
  induction d as [| [k' v'] d IH]; cbn [setitem getitem].
  - now rewrite String.eqb_refl.
  - destruct (String.eqb k' k) eqn:Hk; cbn [getitem].
    + now rewrite String.eqb_refl.
    + now rewrite Hk.
Qed.

(** C4.  When the loop body of [_parse_binary] runs to its end on a packet,
    [instrument_token] is the unsigned 32-bit integer at bytes [0,4) of the
    packet, [segment] is [instrument_token & 0xff], the divisor is 10000000.0
    if that segment is 3 and 100.0 for every other segment, and the price of
    the [i]-th depth entry stored under ["depth"] is the unsigned 32-bit
    integer at bytes [64+12i+4, 64+12i+8) of the packet divided by
    10000000.0 if the segment is 3 and by 100.0 otherwise. *)
Theorem price_divisor_by_segment (d d' : dict) (packet : bytes) :
  parse_packet (Some d) packet = Ok d' ->
  exists h dp,
    packet_header packet = Ok h /\
    _unpack_int packet 0 4 fmt_I = Ok (instrument_token h) /\
    segment h = Z.land (instrument_token h) 255 /\
    divisor h = (if (segment h =? 3)%Z then 10000000%float else 100%float) /\
    getitem d' "depth" = Some (VDepth dp) /\
    market_depth packet (divisor h) = Ok dp /\
    forall i e, nth_error (buy dp ++ sell dp) i = Some e ->
      exists raw,
        _unpack_int packet (64 + 12 * i + 4) (64 + 12 * i + 8) fmt_I = Ok raw /\
        price e = (if (Z.land (instrument_token h) 255 =? 3)%Z
                   then float_of_int raw / 10000000
                   else float_of_int raw / 100)%float.
Proof.
  unfold parse_packet. rewrite packet_header_eq, unpack_I_head.
  destruct (length packet <? 4); [discriminate |].
  cbv zeta. cbn [bind load_d last_trade_time timestamp divisor].
  set (token := be_int (firstn 4 packet)).
  set (seg := Z.land token 255).
  set (dv := if (seg =? 3)%Z then 10000000%float else 100%float).
  destruct (_unpack_int packet 48 52 fmt_I) as [oi |]; [| discriminate].
  destruct (_unpack_int packet 52 56 fmt_I) as [hi |]; [| discriminate].
  destruct (_unpack_int packet 56 60 fmt_I) as [lo |]; [| discriminate].
  cbn [bind].
  destruct (market_depth packet dv) as [dp |] eqn:Hdp; [| discriminate].
  cbn [bind]. intros [= <-].
  eexists; exists dp. split; [reflexivity |].
  cbn [segment instrument_token divisor]. fold token; fold seg; fold dv.
  split; [reflexivity |]. split; [reflexivity |]. split; [reflexivity |].
  split; [apply getitem_setitem |]. split; [exact Hdp |].
  intros i e Hi.
  destruct (@market_depth_entries _ _ _ Hdp) as (_ & _ & _ & Hread).
  destruct (@read_depth_entry_price _ _ _ _ (Hread i e Hi))
    as (raw & Hraw & Hp).
  exists raw. split; [exact Hraw |].
  rewrite Hp. unfold dv. now destruct (seg =? 3)%Z.
Qed.

(** The specification's scenario, once the loop body has a dictionary to
    store into: a 76-byte nse packet (segment 1) with raw price 15000 in its
    first depth slot gets the price 150.0, and the same packet with segment
    3 (cds) gets 15000 / 10000000. *)
Lemma price_divisor_by_segment_witness :
  (parse_packet (Some []) sample_packet = Ok sample_tick /\
   getitem sample_tick "depth"
   = Some (VDepth (mk_depth [mk_entry 7 150 2] [])) /\
   exists h dp,
     packet_header sample_packet = Ok h /\
     _unpack_int sample_packet 0 4 fmt_I = Ok (instrument_token h) /\
     segment h = Z.land (instrument_token h) 255 /\
     divisor h = (if (segment h =? 3)%Z then 10000000%float else 100%float) /\
     getitem sample_tick "depth" = Some (VDepth dp) /\
     market_depth sample_packet (divisor h) = Ok dp /\
     forall i e, nth_error (buy dp ++ sell dp) i = Some e ->
       exists raw,
         _unpack_int sample_packet (64 + 12 * i + 4) (64 + 12 * i + 8) fmt_I
         = Ok raw /\
         price e = (if (Z.land (instrument_token h) 255 =? 3)%Z
                    then float_of_int raw / 10000000
                    else float_of_int raw / 100)%float) /\
  (parse_packet (Some []) sample_cds_packet = Ok sample_cds_tick /\
   getitem sample_cds_tick "depth"
   = Some (VDepth
             (mk_depth [mk_entry 7 (float_of_int 15000 / 10000000) 2] [])) /\
   exists h dp,
     packet_header sample_cds_packet = Ok h /\
     _unpack_int sample_cds_packet 0 4 fmt_I = Ok (instrument_token h) /\
     segment h = Z.land (instrument_token h) 255 /\
     divisor h = (if (segment h =? 3)%Z then 10000000%float else 100%float) /\
     getitem sample_cds_tick "depth" = Some (VDepth dp) /\
     market_depth sample_cds_packet (divisor h) = Ok dp /\
     forall i e, nth_error (buy dp ++ sell dp) i = Some e ->
       exists raw,
         _unpack_int sample_cds_packet (64 + 12 * i + 4) (64 + 12 * i + 8)
           fmt_I = Ok raw /\
         price e = (if (Z.land (instrument_token h) 255 =? 3)%Z
                    then float_of_int raw / 10000000
                    else float_of_int raw / 100)%float).
Proof.
  assert (H : parse_packet (Some []) sample_packet = Ok sample_tick)
    by reflexivity.
  assert (H3 : parse_packet (Some []) sample_cds_packet = Ok sample_cds_tick)
    by reflexivity.
  split.
  - split; [exact H |]. split; [reflexivity |].
    exact (@price_divisor_by_segment _ _ _ H).
  - split; [exact H3 |]. split; [reflexivity |].
    exact (@price_divisor_by_segment _ _ _ H3).
Defined.

Lemma market_depth_layout_witness :
  length (repeat x00 60) <= 64 /\
  market_depth (repeat x00 60) 100 = Ok (mk_depth [] []).
Proof.
  assert (H : length (repeat x00 60) <= 64) by (rewrite repeat_length; lia).
  split; [exact H |].
  exact (proj2 (proj2 (market_depth_layout (repeat x00 60) 100)) H).
Defined.

(* ------------------------------------------------------------------ *)
(** ** The text decoder                                                *)
(* ------------------------------------------------------------------ *)

Section TextDecoder.

Variable C : codec.
Variable self : WebSocket.

(** The effects of [_parse_text_message] are at most one call of
    [on_ticks]. *)
Lemma parse_text_message_trace (payload : bytes) :
  fst (_parse_text_message C self payload) = [] \/
  exists data, fst (_parse_text_message C self payload)
               = [Call_on_ticks (Message data)].
Proof.
  unfold _parse_text_message, call_on_ticks.
  destruct (utf8_decode C payload) as [s |]; cbn; [| now left].
  destruct (b64decode C s) as [data |]; cbn; [| now left].
  destruct (text_try_block C data) as [j | e]; cbn.
  - destruct (on_ticks self) as [f |]; cbn; [| now left].
    right. exists j. now destruct (f (Message j)).
  - left. now destruct (is_ValueError e).
Qed.

(** A failure of [json.loads], or a decompressed payload that is not
    UTF-8, ends the method in its [except ValueError] clause: it returns
    and [on_ticks] is not called. *)
Lemma parse_text_message_value_error (payload : bytes) (s : text)
    (data : bytes) (e : exn) :
  utf8_decode C payload = Some s ->
  b64decode C s = Some data ->
  text_try_block C data = Raise e ->
  is_ValueError e = true ->
  _parse_text_message C self payload = ([], Ok false).
Proof.
  intros Hs Hdata Htry He. unfold _parse_text_message.
  rewrite Hs. cbn [or_raise lift bind_run fst snd app].
  rewrite Hdata. cbn [or_raise lift bind_run fst snd app].
  now rewrite Htry, He.
Qed.

(** When every stage succeeds the decoded message goes to [on_ticks]: the
    payload is base64-decoded, the result decompressed, and the text parsed
    with its apostrophes turned into double quotes. *)
Lemma parse_text_message_delivers (payload : bytes) (s s1 s2 : text)
    (data raw : bytes) (j j' : json) (f : callback tick_data) :
  utf8_decode C payload = Some s ->
  b64decode C s = Some data ->
  zlib_decompress C data = Some raw ->
  utf8_decode C raw = Some s1 ->
  utf8_decode C (utf8_encode C s1) = Some s2 ->
  json_loads C (replace_quotes s2) = Some j ->
  json_loads C (json_dumps C j) = Some j' ->
  on_ticks self = Some f ->
  fst (_parse_text_message C self payload) = [Call_on_ticks (Message j')].
Proof.
  intros Hs Hdata Hraw Hs1 Hs2 Hj Hj' Hf.
  unfold _parse_text_message, text_try_block, call_on_ticks.
  rewrite Hs. cbn [or_raise lift bind_run fst snd app].
  rewrite Hdata. cbn [or_raise lift bind_run fst snd app].
  rewrite Hraw. cbn [or_raise bind]. rewrite Hs1. cbn [or_raise bind].
  rewrite Hs2. cbn [or_raise bind]. rewrite Hj. cbn [or_raise bind].
  rewrite Hj'. cbn [or_raise]. rewrite Hf.
  unfold bind_run, perform, lift, ret. cbn [fst snd app].
  now destruct (f (Message j')).
Qed.

(** C9 (what the code does).  When [zlib.decompress] rejects the decoded
    payload, [zlib.error] is not a [ValueError]: the [except] clause does
    not catch it and it leaves [_parse_text_message]. *)
Theorem parse_text_message_zlib_error (payload : bytes) (s : text)
    (data : bytes) :
  utf8_decode C payload = Some s ->
  b64decode C s = Some data ->
  zlib_decompress C data = None ->
  _parse_text_message C self payload = ([], Raise ZlibError).
Proof.
  intros Hs Hdata Hz. unfold _parse_text_message.
  rewrite Hs. cbn [or_raise lift bind_run fst snd app].
  rewrite Hdata. cbn [or_raise lift bind_run fst snd app].
  unfold text_try_block. now rewrite Hz.
Qed.

End TextDecoder.

(* ------------------------------------------------------------------ *)
(** ** The message dispatcher                                          *)
(* ------------------------------------------------------------------ *)

Lemma parse_text_message_no_decoder (C : codec) (self : WebSocket)
    (payload p : bytes) :
  ~ In (Call_parse_binary p) (fst (_parse_text_message C self payload)).
Proof.
  destruct (parse_text_message_trace C self payload) as [-> | [j ->]].
  - intros [].
  - intros [H | []]. discriminate.
Qed.

Lemma In_bind_run {A B} (m : run A) (k : A -> run B) (ef : effect) :
  In ef (fst (bind_run m k)) ->
  In ef (fst m) \/ exists a, snd m = Ok a /\ In ef (fst (k a)).
Proof.
  unfold bind_run. destruct (snd m) as [a | e]; cbn [fst].
  - intros H. apply in_app_or in H. destruct H; [now left | right; eauto].
  - now left.
Qed.

Lemma bind_run_Ok {A B} (m : run A) (k : A -> run B) (a : A) :
  snd m = Ok a -> bind_run m k = (fst m ++ fst (k a), snd (k a)).
Proof.
  unfold bind_run. now intros ->.
Qed.

Lemma call_on_ticks_trace (self : WebSocket) (data : tick_data) (ef : effect) :
  In ef (fst (call_on_ticks self data)) -> ef = Call_on_ticks data.
Proof.
  unfold call_on_ticks. destruct (on_ticks self) as [f |]; [| intros []].
  intros H. apply In_bind_run in H. destruct H as [[<- | []] | (_ & _ & [])].
  reflexivity.
Qed.

(** The three statements of [_on_message], one after the other. *)
Lemma on_message_parts (C : codec) (self : WebSocket) (payload : bytes)
    (is_binary : bool) (ef : effect) :
  In ef (fst (_on_message C self payload is_binary)) ->
  (ef = Call_on_message payload is_binary /\ on_message self <> None) \/
  ((on_ticks self <> None /\ is_binary = true /\ 4 < length payload) /\
   (ef = Call_parse_binary payload \/ exists d, ef = Call_on_ticks (Ticks d))) \/
  (is_binary = false /\
   (ef = Call_parse_text_message payload \/
    In ef (fst (_parse_text_message C self payload)))).
Proof.
  unfold _on_message. intros H.
  apply In_bind_run in H. destruct H as [H | (_ & _ & H)].
  { left. destruct (on_message self) as [f |]; [| destruct H].
    apply In_bind_run in H. destruct H as [[<- | []] | (_ & _ & [])].
    split; [reflexivity | discriminate]. }
  right. apply In_bind_run in H. destruct H as [H | (_ & _ & H)].
  - left. unfold when in H.
    destruct (on_ticks self) as [g |]; [| destruct H].
    destruct is_binary; [| destruct H].
    destruct (Nat.ltb_spec 4 (length payload)) as [Hlen | _]; [| destruct H].
    split; [repeat split; [discriminate | exact Hlen] |].
    apply In_bind_run in H. destruct H as [[<- | []] | (_ & _ & H)];
      [now left |].
    apply In_bind_run in H. destruct H as [[] | (d & _ & H)].
    right. exists d. now apply call_on_ticks_trace in H.
  - right. unfold when in H. destruct is_binary; [destruct H |].
    split; [reflexivity |].
    apply In_bind_run in H. destruct H as [[<- | []] | (_ & _ & H)];
      [now left |].
    apply In_bind_run in H. destruct H as [H | (_ & _ & [])]. now right.
Qed.

(** C10.  On a binary frame of at most 4 bytes [_on_message] calls neither
    [_parse_binary] nor [on_ticks] (it calls the [on_message] callback and
    nothing else); whenever it calls [_parse_binary], the frame is binary,
    longer than 4 bytes and [on_ticks] is set, and the call is on the frame's
    payload; and it does call it on such a frame when the [on_message]
    callback, if any, returns. *)
Theorem on_message_decoder_gate (C : codec) (self : WebSocket)
    (payload : bytes) (is_binary : bool) :
  (is_binary = true -> length payload <= 4 ->
   forall ef, In ef (fst (_on_message C self payload is_binary)) ->
     ef = Call_on_message payload true) /\
  (forall p, In (Call_parse_binary p)
               (fst (_on_message C self payload is_binary)) ->
     p = payload /\ is_binary = true /\ 4 < length payload /\
     on_ticks self <> None) /\
  (is_binary = true -> 4 < length payload -> on_ticks self <> None ->
   (forall f, on_message self = Some f -> f (payload, true) = Ok tt) ->
   In (Call_parse_binary payload)
      (fst (_on_message C self payload is_binary))).
Proof.
  split; [| split].
  - intros -> Hlen ef H. apply on_message_parts in H.
    destruct H as [[-> _] | [[(_ & _ & Hgt) _] | [Hb _]]];
      [reflexivity | lia | discriminate].
  - intros p H. apply on_message_parts in H.
    destruct H as [[H _] | [[(Hticks & Hb & Hgt) [H | [d H]]] | [_ [H | H]]]];
      try discriminate.
    + injection H as ->. auto.
    + now apply parse_text_message_no_decoder in H.
  - intros -> Hlen Hticks Hcb. unfold _on_message.
    assert (Hfirst : exists tr,
               match on_message self with
               | Some f =>
                   perform (Call_on_message payload true) ;;;
                   lift (f (payload, true))
               | None => ret tt
               end = (tr, Ok tt)).
    { destruct (on_message self) as [f |] eqn:Hf; [| now exists []].
      exists [Call_on_message payload true].
      unfold bind_run, perform, lift. cbn [fst snd app].
      now rewrite (Hcb f eq_refl). }
    destruct Hfirst as [tr ->].
    rewrite (@bind_run_Ok _ _ (tr, Ok tt) _ tt eq_refl). cbn [fst].
    apply in_or_app. right.
    destruct (on_ticks self) as [g |]; [| congruence].
    destruct (Nat.ltb_spec 4 (length payload)) as [_ | Hle]; [| lia].
    cbn [andb when]. unfold bind_run at 1. 
    match goal with |- context [match snd ?m with _ => _ end] =>
      assert (Hin : In (Call_parse_binary payload) (fst m))
    end.
    { unfold bind_run at 1. cbn [perform snd fst app]. now left. }
    match goal with |- context [match snd ?m with _ => _ end] =>
      destruct (snd m)
    end; cbn [fst]; [apply in_or_app; now left | exact Hin].
Qed.

Lemma on_message_decoder_gate_witness :
  length [x00; x01; x00; x00] <= 4 /\
  forall ef,
    In ef (fst (_on_message empty_payload_codec (sample_client "mw" None)
                  [x00; x01; x00; x00] true)) ->
    ef = Call_on_message [x00; x01; x00; x00] true.
Proof.
  assert (Hlen : length [x00; x01; x00; x00] <= 4) by (simpl; lia).
  split; [exact Hlen |].
  exact (proj1 (on_message_decoder_gate empty_payload_codec
                  (sample_client "mw" None) [x00; x01; x00; x00] true)
           eq_refl Hlen).
Defined.

Lemma parse_text_message_zlib_error_witness :
  _parse_text_message empty_payload_codec (sample_client "mw" None) []
  = ([], Raise ZlibError).
Proof.
  exact (@parse_text_message_zlib_error empty_payload_codec
           (sample_client "mw" None) [] [] [] eq_refl eq_refl eq_refl).
Defined.

(* ------------------------------------------------------------------ *)
(** ** The subscription frames                                         *)
(* ------------------------------------------------------------------ *)

Lemma valid_task_spec (t : string) :
  existsb (String.eqb t) valid_tasks = true <-> In t valid_tasks.
Proof.
  rewrite existsb_exists. split.
  - intros (x & Hin & Heq). apply String.eqb_eq in Heq. now subst.
  - intros Hin. exists t. split; [exact Hin | apply String.eqb_refl].
Qed.

(** C7 (as the code has it).  With a task outside mw, sfi, dp,
    [send_request] sends nothing: it prints the invalid-task message and
    returns [None], raising nothing.  With a task among them and a
    connection on which both sends return, it sends the connect frame, then
    the subscribe frame, starts the heartbeat thread and returns [True]. *)
Theorem send_request_frames (self : WebSocket) (token : string) :
  (~ In (task self) valid_tasks ->
   send_request self token = ([Print invalid_task_message], Ok ReturnNone)) /\
  (In (task self) valid_tasks ->
   forall conn, ws self = Some conn ->
     conn (connect_request self) = Ok tt ->
     conn (subscribe_request self token) = Ok tt ->
     send_request self token
     = ([SendMessage (connect_request self);
         SendMessage (subscribe_request self token);
         StartHeartBeatThread], Ok ReturnTrue) /\
     sent_frames (fst (send_request self token))
     = [mk_request "cn" "" (feed_token self) (client_code self)
          (client_code self);
        mk_request (task self) token (feed_token self) (client_code self)
          (client_code self)]).
Proof.
  unfold send_request. split.
  - intros Hno.
    destruct (existsb (String.eqb (task self)) valid_tasks) eqn:Hin;
      [| reflexivity].
    apply valid_task_spec in Hin. contradiction.
  - intros Hin conn Hws Hcn Hsub.
    apply valid_task_spec in Hin. rewrite Hin.
    unfold send_request_body, ws_sendMessage. rewrite Hws.
    unfold bind_run, lift, perform, ret. cbn [fst snd app].
    rewrite Hcn. cbn [fst snd app]. rewrite Hsub. cbn [fst snd app].
    split; reflexivity.
Qed.

Lemma send_request_frames_witness :
  send_request (sample_client "dp" (Some open_connection)) "nse_cm|2885"
  = ([SendMessage (mk_request "cn" "" "feed" "client" "client");
      SendMessage (mk_request "dp" "nse_cm|2885" "feed" "client" "client");
      StartHeartBeatThread], Ok ReturnTrue).
Proof.
  refine (proj1 (proj2 (send_request_frames
                          (sample_client "dp" (Some open_connection))
                          "nse_cm|2885")
                   _ open_connection eq_refl eq_refl eq_refl)).
  cbn. auto.
Defined.

(** An invalid task makes [send_request] return [None] where a validation
    error would be raised, and a valid task on a client without connection
    sends no frame. *)
Lemma send_request_not_raised :
  send_request (sample_client "xyz" (Some open_connection)) "nse_cm|2885"
  = ([Print invalid_task_message], Ok ReturnNone) /\
  send_request (sample_client "mw" None) "nse_cm|2885"
  = ([], Raise AttributeError) /\
  send_request
    (sample_client "mw"
       (Some (fun r => if String.eqb (r_task r) "cn" then Ok tt
                       else Raise Disconnected)))
    "nse_cm|2885"
  = ([SendMessage (mk_request "cn" "" "feed" "client" "client");
      SendClose Disconnected], Raise Disconnected).
Proof.
  repeat split.
Qed.

(* ------------------------------------------------------------------ *)
(** ** The pong watchdog                                               *)
(* ------------------------------------------------------------------ *)

Lemma protocol_after_from (history : list protocol_event) :
  forall self,
    _last_pong_time (fold_left protocol_step history self)
    = match last_pong history with
      | Some t => Some t
      | None => _last_pong_time self
      end.
Proof.
  induction history as [| ev rest IH]; intros self; [reflexivity |].
  cbn [fold_left last_pong]. rewrite IH.
  destruct (last_pong rest); [reflexivity |].
  now destruct ev.
Qed.

Lemma protocol_after_last_pong (history : list protocol_event) :
  _last_pong_time (protocol_after history) = last_pong history.
Proof.
  unfold protocol_after. rewrite protocol_after_from.
  now destruct (last_pong history).
Qed.

Lemma last_pong_In (history : list protocol_event) (t : float) :
  last_pong history = Some t -> In (Pong t) history.
Proof.
  induction history as [| ev rest IH]; [discriminate |].
  cbn [last_pong]. destruct (last_pong rest) as [t' |].
  - intros [= ->]. right. now apply IH.
  - destruct ev; [intros [= ->]; now left | discriminate].
Qed.

Lemma loop_pong_check_drop (self : SmartSocketClientProtocol) (now : float) :
  In DropConnection (_loop_pong_check self now) <->
  exists t, _last_pong_time self = Some t /\
            (t =? 0)%float = false /\
            (2 * PING_INTERVAL <? now - t)%float = true.
Proof.
  unfold _loop_pong_check, truthy.
  destruct (_last_pong_time self) as [t |].
  - destruct (t =? 0)%float eqn:Hz; cbn [negb app In].
    + split.
      * intros [H | []]; discriminate.
      * intros (t' & [= <-] & Hz' & _). congruence.
    + destruct (2 * PING_INTERVAL <? now - t)%float eqn:Hgt; cbn [app In].
      * split; [intros _; exists t; auto | intros _; now left].
      * split.
        -- intros [H | []]; discriminate.
        -- intros (t' & [= <-] & _ & Hgt'). congruence.
  - cbn [app In]. split.
    + intros [H | []]; discriminate.
    + intros (t & Ht & _). discriminate.
Qed.

(** C8.  After any history of pongs and watchdog runs on a protocol object
    (clock readings being nonzero), a run of the watchdog at time [now]
    aborts the connection if and only if the history holds a pong and
    [now - last_pong_time > 2 * PING_INTERVAL], for the time of the latest
    one; without a pong it does not abort; a pong sets [_last_pong_time] to
    the time it is received; and [PING_INTERVAL] is 2.5. *)
Theorem pong_watchdog_aborts_iff (history : list protocol_event)
    (now : float) :
  clock_nonzero history ->
  (In DropConnection (_loop_pong_check (protocol_after history) now) <->
   exists t, last_pong history = Some t /\
             (2 * PING_INTERVAL <? now - t)%float = true) /\
  (last_pong history = None ->
   _loop_pong_check (protocol_after history) now
   = [CallLater PING_INTERVAL "_loop_pong_check"]) /\
  (forall t, _last_pong_time (onPong (protocol_after history) t) = Some t) /\
  (forall t, last_pong (history ++ [Pong t]) = Some t) /\
  PING_INTERVAL = 2.5%float.
Proof.
  intros Hclock. repeat split.
  - intros H. apply loop_pong_check_drop in H.
    destruct H as (t & Ht & _ & Hgt).
    rewrite protocol_after_last_pong in Ht. eauto.
  - intros (t & Ht & Hgt). apply loop_pong_check_drop.
    exists t. rewrite protocol_after_last_pong.
    repeat split; try assumption.
    apply Hclock. now apply last_pong_In.
  - intros Hnone. unfold _loop_pong_check.
    now rewrite protocol_after_last_pong, Hnone.
  - intros t. induction history as [| ev rest IH]; [reflexivity |].
    cbn [app last_pong]. rewrite IH; [reflexivity |].
    intros t' Hin. apply Hclock. now right.
Qed.

Lemma pong_watchdog_aborts_iff_witness :
  clock_nonzero [Pong 100; PongCheck 102; Pong 103] /\
  In DropConnection
    (_loop_pong_check (protocol_after [Pong 100; PongCheck 102; Pong 103])
       108.5) /\
  ~ In DropConnection
    (_loop_pong_check (protocol_after [Pong 100; PongCheck 102; Pong 103])
       108).
Proof.
  assert (Hclock : clock_nonzero [Pong 100; PongCheck 102; Pong 103]).
  { intros t [H | [H | [H | []]]]; try discriminate;
      injection H as <-; reflexivity. }
  split; [exact Hclock |]. split.
  - apply (proj1 (pong_watchdog_aborts_iff 108.5 Hclock)).
    exists 103%float. split; reflexivity.
  - intros H.
    apply (proj1 (pong_watchdog_aborts_iff 108 Hclock)) in H.
    destruct H as (t & [= <-] & Hgt). discriminate.
Defined.

(* ================================================================== *)
(** * Further properties of the decoder                                 *)
(* ================================================================== *)

(* ------------------------------------------------------------------ *)
(** ** [_unpack_int]                                                   *)
(* ------------------------------------------------------------------ *)

Lemma be_int_from (s : bytes) :
  forall acc, (0 <= acc)%Z ->
    (0 <= fold_left (fun a b => a * 256 + byte_val b) s acc
     < (acc + 1) * 256 ^ Z.of_nat (length s))%Z.
Proof.
  induction s as [| b s IH]; intros acc Hacc.
  - cbn [fold_left length]. change (256 ^ Z.of_nat 0)%Z with 1%Z. lia.
  - cbn [fold_left length]. pose proof (byte_val_range b) as Hb.
    destruct (IH (acc * 256 + byte_val b)%Z ltac:(lia)) as [Hlo Hhi].
    split; [exact Hlo |].
    rewrite Nat2Z.inj_succ, Z.pow_succ_r by lia.
    assert (Hpow : (0 < 256 ^ Z.of_nat (length s))%Z)
      by (apply Z.pow_pos_nonneg; lia).
    nia.
Qed.

Lemma be_int_range (s : bytes) :
  (0 <= be_int s < 256 ^ Z.of_nat (length s))%Z.
Proof.
  unfold be_int. pose proof (@be_int_from s 0%Z ltac:(lia)) as H. lia.
Qed.

(** X1.  When [_unpack_int] returns, the value is an unsigned integer of the
    format's width (below 2^32 for "I", below 2^16 for "H") and the bytes
    [start, start + size) lie inside the buffer and inside [start, stop);
    on a window of exactly the format's size it returns if and only if the
    window lies inside the buffer, and raises [struct.error] otherwise. *)
Theorem unpack_int_bounds (bin : bytes) (start stop : nat) (f : byte_format) :
  (forall v, _unpack_int bin start stop f = Ok v ->
     (0 <= v < 256 ^ Z.of_nat (calcsize f))%Z /\
     start + calcsize f <= length bin /\
     start + calcsize f <= stop) /\
  (stop = start + calcsize f ->
   (stop <= length bin ->
    _unpack_int bin start stop f = Ok (be_int (slice bin start stop))) /\
   (length bin < stop -> _unpack_int bin start stop f = Raise StructError)).
Proof.
  split.
  - intros v. unfold _unpack_int, struct_unpack.
    destruct (Nat.eqb_spec (length (slice bin start stop)) (calcsize f))
      as [Hlen | _]; [| discriminate].
    intros [= <-]. split.
    + rewrite <- Hlen. apply be_int_range.
    + rewrite slice_length in Hlen.
      destruct f; cbn [calcsize] in *; lia.
  - intros ->. split; intros H.
    + apply unpack_int_in_range; lia.
    + apply unpack_int_past_end; lia.
Qed.

Lemma unpack_int_bounds_witness :
  _unpack_int [x01; x02; xff; xfe] 2 4 fmt_H = Ok 65534%Z /\
  (0 <= 65534 < 256 ^ Z.of_nat (calcsize fmt_H))%Z.
Proof.
  assert (H : _unpack_int [x01; x02; xff; xfe] 2 4 fmt_H = Ok 65534%Z)
    by reflexivity.
  split; [exact H |].
  exact (proj1 (proj1 (@unpack_int_bounds [x01; x02; xff; xfe] 2 4 fmt_H)
                  65534%Z H)).
Defined.

(* ------------------------------------------------------------------ *)
(** ** [_split_packets] beyond well-formed frames                      *)
(* ------------------------------------------------------------------ *)

Lemma unpack_H_small (bin : bytes) (start stop : nat) (v : Z) :
  _unpack_int bin start stop fmt_H = Ok v -> (0 <= v <= 65535)%Z.
Proof.
  unfold _unpack_int, struct_unpack.
  destruct (Nat.eqb_spec (length (slice bin start stop)) (calcsize fmt_H))
    as [Hlen | _]; [| discriminate].
  intros [= <-]. pose proof (be_int_range (slice bin start stop)) as H.
  rewrite Hlen in H. cbn [calcsize] in H. change (256 ^ Z.of_nat 2)%Z with 65536%Z in H.
  lia.
Qed.

Lemma unpack_int_inside (bin : bytes) (start stop : nat) (f : byte_format)
    (v : Z) :
  _unpack_int bin start stop f = Ok v -> start + calcsize f <= length bin.
Proof.
  unfold _unpack_int, struct_unpack.
  destruct (Nat.eqb_spec (length (slice bin start stop)) (calcsize f))
    as [Hlen | _]; [| discriminate].
  intros _. rewrite slice_length in Hlen.
  destruct f; cbn [calcsize] in *; lia.
Qed.

(** What the loop of [_split_packets] has appended when it returns. *)
Lemma split_loop_shape (bin : bytes) (n : nat) :
  forall j acc ps,
    split_loop bin n j acc = Ok ps ->
    exists new,
      ps = acc ++ new /\
      length new = n /\
      Forall (fun p => (Z.of_nat (length p) <= 65535)%Z) new /\
      (0 < n -> j + 2 * n + list_sum (map (@length byte) new) <= length bin).
Proof.
  induction n as [| n IH]; intros j acc ps.
  - cbn [split_loop]. intros [= <-]. exists []. rewrite app_nil_r.
    repeat split; [constructor | lia].
  - cbn [split_loop].
    destruct (_unpack_int bin j (j + 2) fmt_H) as [len |] eqn:Hlen;
      [| discriminate].
    cbn [bind]. intros Hrest.
    pose proof (@unpack_H_small _ _ _ _ Hlen) as Hsmall.
    pose proof (@unpack_int_inside _ _ _ _ _ Hlen) as Hin. cbn [calcsize] in Hin.
    destruct (IH _ _ _ Hrest) as (new & -> & Hn & Hall & Hsum).
    set (p := slice bin (j + 2) (j + 2 + Z.to_nat len)) in *.
    assert (Hp : length p <= Z.to_nat len /\ j + 2 + length p <= length bin).
    { unfold p. rewrite slice_length. lia. }
    exists (p :: new). rewrite <- app_assoc. split; [reflexivity |].
    split; [cbn [length]; lia |].
    split; [constructor; [lia | exact Hall] |].
    intros _. cbn [map]. rewrite list_sum_cons.
    destruct n as [| n'].
    + destruct new; [| discriminate]. cbn. lia.
    + specialize (Hsum ltac:(lia)). lia.
Qed.

(** X2.  When [_split_packets] returns on a frame of at least 2 bytes, the
    number of packets is the frame's 16-bit count, no packet is longer than
    65535 bytes, and the packets with their 2-byte prefixes and the 2-byte
    count fit in the frame; on a shorter frame it returns no packet. *)
Theorem split_packets_count (bin : bytes) (ps : list bytes) :
  _split_packets bin = Ok ps ->
  (length bin < 2 /\ ps = []) \/
  (2 <= length bin /\
   Z.of_nat (length ps) = be_int (firstn 2 bin) /\
   Forall (fun p => (Z.of_nat (length p) <= 65535)%Z) ps /\
   2 + 2 * length ps + list_sum (map (@length byte) ps) <= length bin).
Proof.
  unfold _split_packets.
  destruct (Nat.ltb_spec (length bin) 2) as [Hlt | Hge].
  - intros [= <-]. now left.
  - right. split; [exact Hge |].
    rewrite (@unpack_int_in_range bin 0 2 fmt_H) in H
      by (cbn [calcsize]; lia).
    cbn [bind] in H. change (slice bin 0 2) with (firstn 2 bin) in H.
    pose proof (be_int_range (firstn 2 bin)) as Hcount.
    destruct (@split_loop_shape _ _ _ _ _ H) as (new & -> & Hn & Hall & Hsum).
    cbn [app]. split; [lia |]. split; [exact Hall |].
    destruct (Z.to_nat (be_int (firstn 2 bin))) as [| k] eqn:Hk.
    + destruct new; [cbn; lia | discriminate].
    + specialize (Hsum ltac:(lia)). lia.
Qed.

Lemma split_packets_count_witness :
  _split_packets sample_frame = Ok [[x01; x02; x03]; [xff]] /\
  ((length sample_frame < 2 /\ [[x01; x02; x03]; [xff]] = @nil bytes) \/
   (2 <= length sample_frame /\
    Z.of_nat (length [[x01; x02; x03]; [xff]]) = be_int (firstn 2 sample_frame) /\
    Forall (fun p : bytes => (Z.of_nat (length p) <= 65535)%Z)
      [[x01; x02; x03]; [xff]] /\
    2 + 2 * length [[x01; x02; x03]; [xff]]
    + list_sum (map (@length byte) [[x01; x02; x03]; [xff]])
    <= length sample_frame)).
Proof.
  assert (H : _split_packets sample_frame = Ok [[x01; x02; x03]; [xff]])
    by reflexivity.
  split; [exact H | exact (@split_packets_count _ _ H)].
Defined.

Lemma split_loop_entries_then (body : bytes) (ps : list bytes) :
  entries body ps ->
  forall pre suffix acc n,
    split_loop (pre ++ body ++ suffix) (length ps + n) (length pre) acc
    = split_loop (pre ++ body ++ suffix) n (length pre + length body)
        (acc ++ ps).
Proof.
  induction 1 as [| hi lo p rest ps Hlen _ IH]; intros pre suffix acc n.
  - cbn [length app Nat.add]. now rewrite Nat.add_0_r, app_nil_r.
  - cbn [length Nat.add split_loop].
    replace ((hi :: lo :: p ++ rest) ++ suffix)
      with (hi :: lo :: p ++ rest ++ suffix)
      by (cbn [app]; now rewrite <- app_assoc).
    rewrite unpack_H_at. cbn [bind].
    rewrite Hlen, Nat2Z.id, slice_packet_at.
    replace (pre ++ hi :: lo :: p ++ rest ++ suffix)
      with ((pre ++ hi :: lo :: p) ++ rest ++ suffix)
      by (rewrite <- app_assoc; reflexivity).
    replace (length pre + 2 + length p)%nat
      with (length (pre ++ hi :: lo :: p))
      by (rewrite length_app; cbn [length]; lia).
    rewrite IH. f_equal.
    + rewrite !length_app. cbn [length]. lia.
    + now rewrite <- app_assoc.
Qed.

(** X3.  Bytes that follow the last entry of a well-formed frame are
    ignored: the frame followed by anything splits into the same packets. *)
Theorem split_packets_ignores_trailing (bin : bytes) (n : nat)
    (ps : list bytes) (extra : bytes) :
  well_formed_frame bin n ps ->
  _split_packets (bin ++ extra) = Ok ps.
Proof.
  intros (hi & lo & body & -> & Hn & Hlen & Hent).
  unfold _split_packets. cbn [app length Nat.ltb Nat.leb].
  change (_unpack_int (hi :: lo :: body ++ extra) 0 2 fmt_H)
    with (Ok (be_int [hi; lo])).
  cbn [bind]. rewrite Hn, Nat2Z.id, <- Hlen.
  pose proof (split_loop_entries_then Hent [hi; lo] extra [] 0) as H.
  rewrite Nat.add_0_r in H. cbn [app length] in H. rewrite H. reflexivity.
Qed.

Lemma split_packets_ignores_trailing_witness :
  _split_packets (sample_frame ++ [xaa; xbb; xcc])
  = Ok [[x01; x02; x03]; [xff]].
Proof.
  exact (@split_packets_ignores_trailing _ _ _ [xaa; xbb; xcc]
           sample_frame_well_formed).
Defined.

(** X4.  A last entry whose body is cut short is not an error: when the
    frame ends before the length its prefix gives, the splitter returns the
    bytes that are there as the last packet. *)
Theorem split_packets_truncated_last (hi lo h l : byte) (body p : bytes)
    (ps : list bytes) :
  be_int [hi; lo] = Z.of_nat (length ps + 1) ->
  entries body ps ->
  (Z.of_nat (length p) <= be_int [h; l])%Z ->
  _split_packets (hi :: lo :: body ++ h :: l :: p) = Ok (ps ++ [p]).
Proof.
  intros Hn Hent Hp. unfold _split_packets. cbn [length Nat.ltb Nat.leb].
  change (_unpack_int (hi :: lo :: body ++ h :: l :: p) 0 2 fmt_H)
    with (Ok (be_int [hi; lo])).
  cbn [bind]. rewrite Hn, Nat2Z.id.
  pose proof (split_loop_entries_then Hent [hi; lo] (h :: l :: p) [] 1) as H.
  cbn [app length] in H. rewrite H. cbn [split_loop app].
  replace (hi :: lo :: body ++ h :: l :: p)
    with ((hi :: lo :: body) ++ h :: l :: p) by reflexivity.
  replace (2 + length body)%nat with (length (hi :: lo :: body))
    by reflexivity.
  rewrite unpack_H_at. cbn [bind]. f_equal. f_equal. f_equal.
  replace ((hi :: lo :: body) ++ h :: l :: p)
    with (((hi :: lo :: body) ++ [h; l]) ++ p)
    by (rewrite <- app_assoc; reflexivity).
  replace (length (hi :: lo :: body) + 2)%nat
    with (length ((hi :: lo :: body) ++ [h; l]))
    by (rewrite length_app; reflexivity).
  unfold slice.
  rewrite skipn_app, skipn_all, Nat.sub_diag. cbn [skipn app].
  apply firstn_all2. lia.
Qed.

Lemma split_packets_truncated_last_witness :
  _split_packets ([x00; x02] ++ [x00; x01; xff] ++ [x00; x09; x01; x02])
  = Ok [[xff]; [x01; x02]].
Proof.
  refine (@split_packets_truncated_last x00 x02 x00 x09 [x00; x01; xff]
            [x01; x02] [[xff]] eq_refl _ _).
  - apply (@entries_cons x00 x01 [xff] [] []); [reflexivity | apply entries_nil].
  - cbv. discriminate.
Defined.

(* ------------------------------------------------------------------ *)
(** ** The loop body on whole packets                                  *)
(* ------------------------------------------------------------------ *)

Lemma market_depth_returns (packet : bytes) (divisor : float) :
  (forall i, 64 + 12 * i < length packet ->
             64 + 12 * i + 10 <= length packet) ->
  exists es,
    length es = length (py_range 64 (length packet) 12) /\
    market_depth packet divisor = Ok (mk_depth (firstn 5 es) (skipn 5 es)).
Proof.
  intros Hall. rewrite market_depth_eq.
  destruct (@read_entries_total packet divisor
              (py_range 64 (length packet) 12)) as [es Hes].
  - intros p Hp. apply depth_range_In in Hp.
    destruct Hp as (i & -> & Hlt). now apply Hall.
  - rewrite Hes. cbn [bind]. exists es. split; [| reflexivity].
    now destruct (@read_entries_nth _ _ _ _ Hes).
Qed.

Lemma market_depth_raises (packet : bytes) (divisor : float) (i : nat) :
  64 + 12 * i < length packet -> length packet < 64 + 12 * i + 10 ->
  market_depth packet divisor = Raise StructError.
Proof.
  intros Hlt Hshort. rewrite market_depth_eq.
  assert (Hin : In (64 + 12 * i) (py_range 64 (length packet) 12))
    by (apply depth_range_In; eauto).
  revert Hin. generalize (py_range 64 (length packet) 12) as ps.
  induction ps as [| q ps IH]; intros Hin; [destruct Hin |].
  cbn [read_entries].
  destruct (Nat.le_gt_cases (q + 10) (length packet)) as [Hq | Hq].
  - rewrite read_depth_entry_in_range by exact Hq. cbn [bind].
    destruct Hin as [-> | Hin]; [lia |].
    specialize (IH Hin).
    destruct (read_entries packet divisor ps) as [es | e];
      cbn [bind] in IH |- *; [discriminate | exact IH].
  - now rewrite read_depth_entry_past_end by exact Hq.
Qed.

Lemma depth_range_aligned (k : nat) :
  length (py_range 64 (64 + 12 * k) 12) = k.
Proof.
  unfold py_range. rewrite length_map, length_seq.
  replace (64 + 12 * k - 64 + (12 - 1))%nat with (11 + k * 12)%nat by lia.
  rewrite Nat.div_add by lia. reflexivity.
Qed.

(** X5.  On a packet of 64 + 12k bytes the depth loop returns k entries:
    the first min(k, 5) in [buy] and the remaining k - 5 in [sell]; the
    184-byte packet of the full mode gives 5 and 5. *)
Theorem market_depth_aligned (packet : bytes) (divisor : float) (k : nat) :
  length packet = 64 + 12 * k ->
  exists dp,
    market_depth packet divisor = Ok dp /\
    length (buy dp) = Nat.min k 5 /\
    length (sell dp) = k - 5.
Proof.
  intros Hlen.
  destruct (@market_depth_returns packet divisor) as (es & Hes & Hdp).
  - intros i Hi. lia.
  - rewrite Hlen, depth_range_aligned in Hes.
    exists (mk_depth (firstn 5 es) (skipn 5 es)). split; [exact Hdp |].
    cbn [buy sell]. rewrite length_firstn, length_skipn. lia.
Qed.

Lemma market_depth_aligned_witness :
  exists dp,
    market_depth (repeat x01 184) 100 = Ok dp /\
    length (buy dp) = 5 /\ length (sell dp) = 5.
Proof.
  assert (Hlen : length (repeat x01 184) = 64 + 12 * 10)
    by (now rewrite repeat_length).
  exact (@market_depth_aligned (repeat x01 184) 100 10 Hlen).
Defined.

Lemma try_timestamp_eq (packet : bytes) (a : nat) :
  try_timestamp packet a (a + 4)
  = if a + 4 <=? length packet
    then VDatetime (be_int (slice packet a (a + 4)))
    else VNone.
Proof.
  unfold try_timestamp.
  destruct (Nat.leb_spec (a + 4) (length packet)) as [Hin | Hout].
  - now rewrite unpack_int_in_range by (cbn [calcsize]; lia).
  - now rewrite unpack_int_past_end by (cbn [calcsize]; lia).
Qed.

(** X6.  In a decoded header [instrument_token] is below 2^32, [segment] is
    between 0 and 255, the divisor is one of the two constants; and the two
    time fields are [None] exactly when the packet ends before them (48 and
    64 bytes), without any error. *)
Theorem packet_header_fields (packet : bytes) (h : packet_locals) :
  packet_header packet = Ok h ->
  (0 <= instrument_token h < 2 ^ 32)%Z /\
  (0 <= segment h <= 255)%Z /\
  (divisor h = 10000000%float \/ divisor h = 100%float) /\
  (last_trade_time h = VNone <-> length packet < 48) /\
  (timestamp h = VNone <-> length packet < 64).
Proof.
  rewrite packet_header_eq.
  destruct (Nat.ltb_spec (length packet) 4) as [| Hlen]; [discriminate |].
  intros H. apply Ok_inj in H. subst h.
  cbn [instrument_token segment divisor last_trade_time timestamp].
  pose proof (be_int_range (firstn 4 packet)) as Htoken.
  rewrite length_firstn in Htoken.
  replace (Nat.min 4 (length packet)) with 4%nat in Htoken by lia.
  change (256 ^ Z.of_nat 4)%Z with (2 ^ 32)%Z in Htoken.
  split; [exact Htoken |]. split.
  - assert (Hland : Z.land (be_int (firstn 4 packet)) 255
                    = (be_int (firstn 4 packet) mod 256)%Z)
      by (change 255%Z with (Z.ones 8); now rewrite Z.land_ones by lia).
    rewrite Hland.
    pose proof (Z.mod_pos_bound (be_int (firstn 4 packet)) 256
                  ltac:(lia)) as Hmod.
    lia.
  - split; [destruct (_ =? 3)%Z; auto |].
    change (try_timestamp packet 44 48) with (try_timestamp packet 44 (44 + 4)).
    change (try_timestamp packet 60 64) with (try_timestamp packet 60 (60 + 4)).
    rewrite !try_timestamp_eq.
    split.
    + destruct (Nat.leb_spec (44 + 4) (length packet)); split; intros;
        try discriminate; try reflexivity; try assumption; exfalso; lia.
    + destruct (Nat.leb_spec (60 + 4) (length packet)); split; intros;
        try discriminate; try reflexivity; try assumption; exfalso; lia.
Qed.

Lemma packet_header_fields_witness :
  exists h,
    packet_header [x00; x00; x01; x03] = Ok h /\
    segment h = 3%Z /\ last_trade_time h = VNone /\ timestamp h = VNone.
Proof.
  assert (H : packet_header [x00; x00; x01; x03]
              = Ok (mk_locals 259 3 10000000 true VNone VNone))
    by reflexivity.
  destruct (@packet_header_fields _ _ H) as (_ & _ & _ & Hltt & Hts).
  eexists. split; [exact H |]. split; [reflexivity |].
  split; [apply Hltt | apply Hts]; cbn [length]; lia.
Defined.

Lemma parse_packet_bound (d : dict) (packet : bytes) :
  parse_packet (Some d) packet
  = if length packet <? 60 then Raise StructError
    else
      dp <- market_depth packet
              (if (Z.land (be_int (firstn 4 packet)) 255 =? 3)%Z
               then 10000000%float else 100%float) ;;
      Ok (setitem
            (setitem
               (setitem
                  (setitem
                     (setitem
                        (setitem d "last_trade_time"
                           (try_timestamp packet 44 48))
                        "oi" (VInt (be_int (slice packet 48 52))))
                     "oi_day_high" (VInt (be_int (slice packet 52 56))))
                  "oi_day_low" (VInt (be_int (slice packet 56 60))))
               "timestamp" (try_timestamp packet 60 64))
            "depth" (VDepth dp)).
Proof.
  unfold parse_packet. rewrite packet_header_eq.
  destruct (Nat.ltb_spec (length packet) 60) as [Hshort | Hlong].
  - destruct (Nat.ltb_spec (length packet) 4); [reflexivity |].
    cbv zeta. cbn [bind load_d].
    destruct (Nat.le_gt_cases 52 (length packet));
      [| now rewrite unpack_int_past_end by (cbn [calcsize]; lia)].
    rewrite (@unpack_int_in_range packet 48) by (cbn [calcsize]; lia).
    cbn [bind].
    destruct (Nat.le_gt_cases 56 (length packet));
      [| now rewrite unpack_int_past_end by (cbn [calcsize]; lia)].
    rewrite (@unpack_int_in_range packet 52) by (cbn [calcsize]; lia).
    cbn [bind].
    now rewrite unpack_int_past_end by (cbn [calcsize]; lia).
  - destruct (Nat.ltb_spec (length packet) 4); [lia |].
    cbv zeta. cbn [bind load_d last_trade_time timestamp divisor].
    rewrite !unpack_int_in_range by (cbn [calcsize]; lia).
    reflexivity.
Qed.

(** X7.  With a dictionary bound to [d], the loop body of [_parse_binary]
    returns on a packet if and only if the packet has at least 60 bytes and
    every depth slot that starts inside it (offsets 64, 76, ...) has its 10
    bytes inside it; on any other packet it raises [struct.error]. *)
Theorem parse_packet_returns_iff (d : dict) (packet : bytes) :
  ((exists d', parse_packet (Some d) packet = Ok d') <->
   60 <= length packet /\
   forall i, 64 + 12 * i < length packet ->
             64 + 12 * i + 10 <= length packet) /\
  ((forall d', parse_packet (Some d) packet <> Ok d') ->
   parse_packet (Some d) packet = Raise StructError).
Proof.
  rewrite parse_packet_bound.
  destruct (Nat.ltb_spec (length packet) 60) as [Hshort | Hlong].
  - split; [| reflexivity].
    split; [intros [d' H]; discriminate | intros [H _]; lia].
  - set (dv := if (_ =? 3)%Z then _ else _).
    assert (Hcases :
              (forall i, 64 + 12 * i < length packet ->
                         64 + 12 * i + 10 <= length packet) \/
              exists i, 64 + 12 * i < length packet /\
                        length packet < 64 + 12 * i + 10).
    { destruct (Nat.le_gt_cases (length packet) 64) as [H64 | H64];
        [left; intros; lia |].
      set (i := (length packet - 64 - 1) / 12).
      pose proof (Nat.div_mod_eq (length packet - 64 - 1) 12) as Hdm.
      pose proof (Nat.mod_upper_bound (length packet - 64 - 1) 12
                    ltac:(lia)) as Hm.
      fold i in Hdm.
      destruct (Nat.le_gt_cases (64 + 12 * i + 10) (length packet)) as [H | H].
      - left. intros j Hj.
        assert (j <= i) by nia. nia.
      - right. exists i. split; [lia | exact H]. }
    destruct Hcases as [Hall | (i & Hlt & Hcut)].
    + destruct (@market_depth_returns packet dv Hall) as (es & _ & ->).
      cbn [bind]. split; [| intros Hno; now destruct (Hno _ eq_refl)].
      split; [intros _; split; [exact Hlong | exact Hall] | eauto].
    + rewrite (@market_depth_raises packet dv i Hlt Hcut). cbn [bind].
      split; [| reflexivity].
      split; [intros [d' H]; discriminate |].
      intros [_ Hall]. specialize (Hall i Hlt). lia.
Qed.

Lemma parse_packet_returns_iff_witness :
  (exists d', parse_packet (Some []) sample_packet = Ok d') /\
  parse_packet (Some []) (repeat x00 59) = Raise StructError.
Proof.
  split.
  - apply (proj1 (@parse_packet_returns_iff [] sample_packet)).
    split; [cbv; lia |].
    intros i Hi. change (length sample_packet) with 76 in *. lia.
  - apply (proj2 (@parse_packet_returns_iff [] (repeat x00 59))).
    intros d' H. discriminate.
Defined.

Lemma parse_loop_bound (packets : list bytes) :
  forall d r, parse_loop (Some d) packets = Ok r -> exists d', r = Some d'.
Proof.
  induction packets as [| p rest IH]; intros d r.
  - cbn [parse_loop]. intros [= <-]. eauto.
  - cbn [parse_loop].
    destruct (parse_packet (Some d) p) as [d1 |]; [| discriminate].
    cbn [bind]. apply IH.
Qed.

(** X8.  Even with a dictionary bound to [d], [_parse_binary] returns one
    tick per frame, not one per packet: [data.append(d)] stands after the
    loop, so the list always has exactly one element, and for a frame
    without packets (a heartbeat of fewer than 2 bytes, or count 0) that
    element is the dictionary [d] as it was. *)
Theorem parse_binary_one_tick (d : dict) (bin : bytes) :
  (forall ticks, _parse_binary_in (Some d) bin = Ok ticks ->
     exists t, ticks = [t]) /\
  (_split_packets bin = Ok [] -> _parse_binary_in (Some d) bin = Ok [d]).
Proof.
  unfold _parse_binary_in. split.
  - intros ticks.
    destruct (_split_packets bin) as [packets |]; [| discriminate].
    cbn [bind].
    destruct (parse_loop (Some d) packets) as [r |] eqn:Hloop;
      [| discriminate].
    destruct (@parse_loop_bound _ _ _ Hloop) as [d' ->].
    cbn [bind load_d app]. intros [= <-]. eauto.
  - now intros ->.
Qed.

Lemma parse_binary_one_tick_witness :
  _parse_binary_in (Some sample_tick) [x00] = Ok [sample_tick].
Proof.
  exact (proj2 (parse_binary_one_tick sample_tick [x00]) eq_refl).
Defined.

Lemma getitem_setitem_other (d : dict) (k k' : string) (v : value) :
  k <> k' -> getitem (setitem d k v) k' = getitem d k'.
Proof.
  intros Hne. induction d as [| [k0 v0] d IH]; cbn [setitem getitem].
  - destruct (String.eqb_spec k k'); [contradiction | reflexivity].
  - destruct (String.eqb_spec k0 k) as [-> | Hk0]; cbn [getitem].
    + destruct (String.eqb_spec k k'); [contradiction | reflexivity].
    + now rewrite IH.
Qed.

(** X9.  The loop body stores six keys and no other: starting from an empty
    dictionary the tick has the keys last_trade_time, oi, oi_day_high,
    oi_day_low, timestamp, depth in this order, and whatever the dictionary
    held under instrument_token, tradable or any further key is left as it
    was; the decoded [instrument_token], [segment] and [tradable] are not
    stored. *)
Theorem parse_packet_keys (d d' : dict) (packet : bytes) :
  parse_packet (Some d) packet = Ok d' ->
  (d = [] ->
   map fst d' = ["last_trade_time"; "oi"; "oi_day_high"; "oi_day_low";
                 "timestamp"; "depth"]%string) /\
  (forall k,
     ~ In k ["last_trade_time"; "oi"; "oi_day_high"; "oi_day_low";
             "timestamp"; "depth"]%string ->
     getitem d' k = getitem d k).
Proof.
  rewrite parse_packet_bound.
  destruct (length packet <? 60); [discriminate |].
  destruct (market_depth packet _) as [dp |]; [| discriminate].
  cbn [bind]. intros H. apply Ok_inj in H. subst d'. split.
  - intros ->. reflexivity.
  - intros k Hk. cbn [In] in Hk.
    rewrite !getitem_setitem_other; [reflexivity | | | | | |];
      intros Heq; subst k; apply Hk; auto 10.
Qed.

Lemma parse_packet_keys_witness :
  map fst sample_tick
  = ["last_trade_time"; "oi"; "oi_day_high"; "oi_day_low";
     "timestamp"; "depth"]%string /\
  getitem sample_tick "instrument_token" = None /\
  getitem sample_tick "tradable" = None.
Proof.
  assert (H : parse_packet (Some []) sample_packet = Ok sample_tick)
    by reflexivity.
  destruct (@parse_packet_keys _ _ _ H) as [Hkeys Hother].
  split; [exact (Hkeys eq_refl) |].
  split; (rewrite Hother; [reflexivity |]);
    cbn [In]; intros Hin;
    repeat (destruct Hin as [Hin | Hin]; [discriminate |]); exact Hin.
Defined.

(* ================================================================== *)
(** * Further properties of the dispatcher and the text decoder         *)
(* ================================================================== *)

Lemma split_loop_error (bin : bytes) (n : nat) :
  forall j acc e, split_loop bin n j acc = Raise e -> e = StructError.
Proof.
  induction n as [| n IH]; intros j acc e; cbn [split_loop];
    [discriminate |].
  unfold _unpack_int at 1, struct_unpack.
  destruct (length (slice bin j (j + 2)) =? calcsize fmt_H); cbn [bind].
  - apply IH.
  - now intros [= <-].
Qed.

Lemma parse_binary_error (bin : bytes) :
  _parse_binary bin = Raise NameError \/ _parse_binary bin = Raise StructError.
Proof.
  rewrite parse_binary_eq.
  destruct (_split_packets bin) as [[| p rest] | e] eqn:Hsplit.
  - now left.
  - destruct (length p <? 4); auto.
  - right. f_equal. revert Hsplit. unfold _split_packets.
    destruct (length bin <? 2); [discriminate |].
    unfold _unpack_int at 1, struct_unpack.
    destruct (length (slice bin 0 2) =? calcsize fmt_H); cbn [bind].
    + apply split_loop_error.
    + now intros [= <-].
Qed.

(** X10.  [on_ticks] never receives a tick list: on a binary frame
    [_on_message] makes no call of [on_ticks] at all, and on a binary frame
    of more than 4 bytes, with [on_ticks] set and the [on_message] callback
    absent or returning, it raises the decoder's [NameError] or
    [struct.error]. *)
Theorem on_message_binary_raises (C : codec) (self : WebSocket)
    (payload : bytes) :
  (forall d, ~ In (Call_on_ticks d) (fst (_on_message C self payload true))) /\
  (4 < length payload -> on_ticks self <> None ->
   (forall f, on_message self = Some f -> f (payload, true) = Ok tt) ->
   snd (_on_message C self payload true) = Raise NameError \/
   snd (_on_message C self payload true) = Raise StructError).
Proof.
  unfold _on_message. split.
  - intros d H.
    apply In_bind_run in H. destruct H as [H | (_ & _ & H)].
    { destruct (on_message self) as [f |]; [| destruct H].
      apply In_bind_run in H. destruct H as [[H | []] | (_ & _ & [])].
      discriminate. }
    apply In_bind_run in H. destruct H as [H | (_ & _ & [])].
    unfold when in H.
    destruct (_ && _ && _); [| destruct H].
    apply In_bind_run in H. destruct H as [[H | []] | (_ & _ & H)];
      [discriminate |].
    apply In_bind_run in H. destruct H as [[] | (data & Hdata & _)].
    cbn [lift snd] in Hdata.
    destruct (parse_binary_error payload) as [He | He];
      rewrite He in Hdata; discriminate.
  - intros Hlen Hticks Hcb.
    assert (Hfirst : exists tr,
               match on_message self with
               | Some f =>
                   perform (Call_on_message payload true) ;;;
                   lift (f (payload, true))
               | None => ret tt
               end = (tr, Ok tt)).
    { destruct (on_message self) as [f |] eqn:Hf; [| now exists []].
      exists [Call_on_message payload true].
      unfold bind_run, perform, lift. cbn [fst snd app].
      now rewrite (Hcb f eq_refl). }
    destruct Hfirst as [tr ->].
    rewrite (@bind_run_Ok _ _ (tr, Ok tt) _ tt eq_refl). cbn [snd].
    destruct (on_ticks self) as [g |]; [| congruence].
    destruct (Nat.ltb_spec 4 (length payload)) as [_ | Hle]; [| lia].
    cbn [andb when].
    unfold bind_run, perform, lift. cbn [fst snd app].
    destruct (parse_binary_error payload) as [-> | ->]; cbn [snd]; auto.
Qed.

Lemma on_message_binary_raises_witness :
  snd (_on_message empty_payload_codec (sample_client "mw" None)
         ([x00; x01; x00; x4c] ++ sample_packet) true) = Raise NameError \/
  snd (_on_message empty_payload_codec (sample_client "mw" None)
         ([x00; x01; x00; x4c] ++ sample_packet) true) = Raise StructError.
Proof.
  apply (proj2 (on_message_binary_raises empty_payload_codec
                  (sample_client "mw" None)
                  ([x00; x01; x00; x4c] ++ sample_packet))).
  - cbv. lia.
  - discriminate.
  - intros f H. discriminate.
Defined.

Section TextStages.

Variable C : codec.
Variable self : WebSocket.

(** X11.  Once the payload is base64-decoded and decompressed, what a
    failure of the later stages does depends on its class: when the
    decompressed bytes are not UTF-8, or [json.loads] rejects the text with
    [json.JSONDecodeError], [_parse_text_message] returns through its
    [except ValueError] clause without calling [on_ticks]; when the text is
    nested beyond the recursion limit, the [RecursionError] of [json.loads]
    is not a [ValueError] and leaves the method. *)
Theorem parse_text_message_parse_failure (payload : bytes) (s : text)
    (data raw : bytes) :
  utf8_decode C payload = Some s ->
  b64decode C s = Some data ->
  zlib_decompress C data = Some raw ->
  (utf8_decode C raw = None ->
   _parse_text_message C self payload = ([], Ok false)) /\
  (forall s1 s2,
     utf8_decode C raw = Some s1 ->
     utf8_decode C (utf8_encode C s1) = Some s2 ->
     json_loads C (replace_quotes s2) = None ->
     (json_too_deep C (replace_quotes s2) = false ->
      _parse_text_message C self payload = ([], Ok false)) /\
     (json_too_deep C (replace_quotes s2) = true ->
      _parse_text_message C self payload = ([], Raise RecursionError))).
Proof.
  intros Hs Hdata Hraw. split.
  - intros Hbad.
    apply (@parse_text_message_value_error C self payload s data
             UnicodeDecodeError Hs Hdata); [| reflexivity].
    unfold text_try_block. rewrite Hraw. cbn [or_raise bind].
    now rewrite Hbad.
  - intros s1 s2 Hs1 Hs2 Hjson.
    assert (Htry : text_try_block C data
                   = Raise (json_loads_error C (replace_quotes s2))).
    { unfold text_try_block. rewrite Hraw. cbn [or_raise bind].
      rewrite Hs1. cbn [or_raise bind]. rewrite Hs2. cbn [or_raise bind].
      now rewrite Hjson. }
    split; intros Hdeep.
    + apply (@parse_text_message_value_error C self payload s data
               JSONDecodeError Hs Hdata); [| reflexivity].
      rewrite Htry. unfold json_loads_error. now rewrite Hdeep.
    + unfold _parse_text_message.
      rewrite Hs. cbn [or_raise lift bind_run fst snd app].
      rewrite Hdata. cbn [or_raise lift bind_run fst snd app].
      rewrite Htry. unfold json_loads_error. now rewrite Hdeep.
Qed.

(** X13.  A message that decodes is handed to [on_ticks] without a test
    that the callback is set: with [on_ticks] unset the method raises
    [TypeError]; with it set the callback is called once with the parsed
    message and an exception it raises leaves the method. *)
Theorem parse_text_message_callback (payload : bytes) (s s1 s2 : text)
    (data raw : bytes) (j j' : json) :
  utf8_decode C payload = Some s ->
  b64decode C s = Some data ->
  zlib_decompress C data = Some raw ->
  utf8_decode C raw = Some s1 ->
  utf8_decode C (utf8_encode C s1) = Some s2 ->
  json_loads C (replace_quotes s2) = Some j ->
  json_loads C (json_dumps C j) = Some j' ->
  (on_ticks self = None ->
   _parse_text_message C self payload = ([], Raise TypeError)) /\
  (forall f, on_ticks self = Some f ->
     _parse_text_message C self payload
     = ([Call_on_ticks (Message j')],
        match f (Message j') with
        | Ok _ => Ok true
        | Raise e => Raise e
        end)).
Proof.
  intros Hs Hdata Hraw Hs1 Hs2 Hj Hj'.
  assert (Htry : text_try_block C data = Ok j').
  { unfold text_try_block. rewrite Hraw. cbn [or_raise bind].
    rewrite Hs1. cbn [or_raise bind]. rewrite Hs2. cbn [or_raise bind].
    rewrite Hj. cbn [or_raise bind]. now rewrite Hj'. }
  unfold _parse_text_message, call_on_ticks.
  rewrite Hs. cbn [or_raise lift bind_run fst snd app].
  rewrite Hdata. cbn [or_raise lift bind_run fst snd app].
  rewrite Htry. split.
  - now intros ->.
  - intros f ->. unfold bind_run, perform, lift, ret. cbn [fst snd app].
    now destruct (f (Message j')).
Qed.

(** X14.  Whenever the [on_message] callback is absent or returns, a text
    frame is passed to [_parse_text_message], whether [on_ticks] is set or
    not, and what that method raises leaves [_on_message]; when the callback
    raises, its exception leaves [_on_message] and the text decoder is not
    reached; a binary frame is never passed to it. *)
Theorem on_message_text_frame (payload : bytes) :
  ((forall f, on_message self = Some f -> f (payload, false) = Ok tt) ->
   _on_message C self payload false
   = (match on_message self with
      | Some _ => [Call_on_message payload false]
      | None => []
      end
      ++ Call_parse_text_message payload
         :: fst (_parse_text_message C self payload),
      match snd (_parse_text_message C self payload) with
      | Ok _ => Ok tt
      | Raise e => Raise e
      end)) /\
  (forall f e, on_message self = Some f -> f (payload, false) = Raise e ->
     _on_message C self payload false
     = ([Call_on_message payload false], Raise e)) /\
  (forall p, ~ In (Call_parse_text_message p)
               (fst (_on_message C self payload true))).
Proof.
  split; [| split].
  - intros Hcb. unfold _on_message. rewrite andb_false_r.
    destruct (on_message self) as [f |] eqn:Hf.
    + rewrite (Hcb f eq_refl).
      unfold when, bind_run, perform, lift, ret. cbn [negb fst snd app].
      destruct (_parse_text_message C self payload) as [tr [b | e]];
        cbn [fst snd app]; [now rewrite app_nil_r | reflexivity].
    + unfold when, bind_run, perform, lift, ret. cbn [negb fst snd app].
      destruct (_parse_text_message C self payload) as [tr [b | e]];
        cbn [fst snd app]; [now rewrite app_nil_r | reflexivity].
  - intros f e Hf He. unfold _on_message. rewrite Hf, He.
    unfold bind_run, perform, lift. cbn [fst snd app]. reflexivity.
  - intros p H. apply on_message_parts in H.
    destruct H as [[H _] | [[_ [H | [d H]]] | [H _]]]; discriminate.
Qed.

End TextStages.

Lemma parse_text_message_parse_failure_witness :
  _parse_text_message sample_codec (bare_client "mw" None)
    (ascii_bytes "eJwDAAAAAAE=") = ([], Ok false) /\
  _parse_text_message nested_codec (bare_client "mw" None)
    (ascii_bytes base64_of_nested) = ([], Raise RecursionError).
Proof.
  split.
  - exact (proj1 (proj2 (@parse_text_message_parse_failure sample_codec
                           (bare_client "mw" None)
                           (ascii_bytes "eJwDAAAAAAE=")
                           (ascii_text "eJwDAAAAAAE=") zlib_of_empty []
                           eq_refl eq_refl eq_refl)
                    [] [] eq_refl eq_refl eq_refl)
             eq_refl).
  - refine (proj2 (proj2 (@parse_text_message_parse_failure nested_codec
                            (bare_client "mw" None)
                            (ascii_bytes base64_of_nested)
                            (ascii_text base64_of_nested) zlib_of_nested
                            nested_brackets eq_refl eq_refl eq_refl)
                     (map (fun c => Z.to_N (byte_val c)) nested_brackets)
                     (map (fun c => Z.to_N (byte_val c)) nested_brackets)
                     _ _ _)
              _); vm_compute; reflexivity.
Defined.

Lemma parse_text_message_callback_witness :
  _parse_text_message sample_codec (bare_client "mw" None)
    (ascii_bytes "eJyLjgUAARUAuQ==") = ([], Raise TypeError).
Proof.
  exact (proj1 (@parse_text_message_callback sample_codec
                  (bare_client "mw" None) (ascii_bytes "eJyLjgUAARUAuQ==")
                  (ascii_text "eJyLjgUAARUAuQ==") (ascii_text "[]")
                  (ascii_text "[]") zlib_of_brackets (ascii_bytes "[]")
                  (JArray []) (JArray [])
                  eq_refl eq_refl eq_refl eq_refl eq_refl eq_refl eq_refl)
           eq_refl).
Defined.

Lemma on_message_text_frame_witness :
  _on_message sample_codec
    (mk_WebSocket "mw" "feed" "client" None (Some (fun _ => Ok tt)) None)
    (ascii_bytes "eJyLjgUAARUAuQ==") false
  = ([Call_on_message (ascii_bytes "eJyLjgUAARUAuQ==") false;
      Call_parse_text_message (ascii_bytes "eJyLjgUAARUAuQ==")],
     Raise TypeError).
Proof.
  refine (proj1 (on_message_text_frame sample_codec
                   (mk_WebSocket "mw" "feed" "client" None
                      (Some (fun _ => Ok tt)) None)
                   (ascii_bytes "eJyLjgUAARUAuQ=="))
            _).
  intros f [= <-]. reflexivity.
Defined.

(* ================================================================== *)
(** * Further properties of the subscription and the heartbeat          *)
(* ================================================================== *)

Lemma send_request_cases (self : WebSocket) (token : string) :
  In (task self) valid_tasks ->
  (ws self = None /\ send_request self token = ([], Raise AttributeError)) \/
  (exists e,
     ws self <> None /\
     send_request self token = ([SendClose e], Raise e)) \/
  (exists e,
     ws self <> None /\
     send_request self token
     = ([SendMessage (connect_request self); SendClose e], Raise e)) \/
  (ws self <> None /\
   send_request self token
   = ([SendMessage (connect_request self);
       SendMessage (subscribe_request self token);
       StartHeartBeatThread], Ok ReturnTrue)).
Proof.
  intros Hin. apply valid_task_spec in Hin.
  unfold send_request, send_request_body, ws_sendMessage, _close.
  rewrite Hin.
  destruct (ws self) as [conn |];
    unfold bind_run, lift, perform, ret, raise; cbn [fst snd app];
    [| now left].
  right.
  destruct (conn (connect_request self)) as [[] | e1]; cbn [fst snd app];
    [| left; exists e1; split; [discriminate | reflexivity]].
  right.
  destruct (conn (subscribe_request self token)) as [[] | e2];
    cbn [fst snd app].
  - right. split; [discriminate | reflexivity].
  - left. exists e2. split; [discriminate | reflexivity].
Qed.

(** X15.  With a valid task, whatever the connection does: the frames
    [send_request] sends are a prefix of connect, subscribe; it returns
    [True] exactly when both were sent, and only then starts the heartbeat
    thread; when it raises with a connection present, the last thing it did
    was to ask for the connection to be closed, and it asks for that in no
    other case; it never returns [None]. *)
Theorem send_request_outcomes (self : WebSocket) (token : string) :
  In (task self) valid_tasks ->
  (sent_frames (fst (send_request self token)) = [] \/
   sent_frames (fst (send_request self token)) = [connect_request self] \/
   sent_frames (fst (send_request self token))
   = [connect_request self; subscribe_request self token]) /\
  (snd (send_request self token) = Ok ReturnTrue <->
   sent_frames (fst (send_request self token))
   = [connect_request self; subscribe_request self token]) /\
  (snd (send_request self token) = Ok ReturnTrue <->
   In StartHeartBeatThread (fst (send_request self token))) /\
  (forall e, snd (send_request self token) = Raise e -> ws self <> None ->
     exists tr, fst (send_request self token) = tr ++ [SendClose e]) /\
  (forall e, In (SendClose e) (fst (send_request self token)) ->
     snd (send_request self token) = Raise e) /\
  (forall r, snd (send_request self token) = Ok r -> r = ReturnTrue).
Proof.
  intros Hin.
  destruct (send_request_cases self token Hin)
    as [[Hws ->] | [(e & Hws & ->) | [(e & Hws & ->) | [Hws ->]]]];
    cbn [fst snd sent_frames flat_map app In];
    repeat split; intros;
    repeat match goal with
      | H : _ \/ _ |- _ => destruct H
      | H : False |- _ => destruct H
      | H : Raise _ = Raise _ |- _ => injection H as <-
      | H : SendClose _ = SendClose _ |- _ => injection H as <-
      | H : Ok _ = Ok _ |- _ => injection H as <-
      end;
    try discriminate; try contradiction; try reflexivity; auto;
    try (now exists []);
    try (now exists [SendMessage (connect_request self)]).
Qed.

Lemma send_request_outcomes_witness :
  exists tr,
    fst (send_request
           (sample_client "mw"
              (Some (fun r => if String.eqb (r_task r) "cn" then Ok tt
                              else Raise Disconnected)))
           "nse_cm|2885")
    = tr ++ [SendClose Disconnected].
Proof.
  refine (proj1 (proj2 (proj2 (proj2
            (@send_request_outcomes
               (sample_client "mw"
                  (Some (fun r => if String.eqb (r_task r) "cn" then Ok tt
                                  else Raise Disconnected)))
               "nse_cm|2885" _)))) Disconnected eq_refl _).
  - cbn. auto.
  - discriminate.
Defined.

Lemma heartBeat_turn_cases (self : WebSocket) :
  heartBeat_turn self
  = ([Performs (SendMessage (heartbeat_request self)); Sleep 60], Ok tt) \/
  heartBeat_turn self
  = ([Performs (Print "HeartBeats Failed"); Sleep 60], Ok tt).
Proof.
  unfold heartBeat_turn, try_except_all, ws_sendMessage.
  destruct (ws self) as [conn |];
    unfold bind_run, lift, perform, raise; cbn [fst snd app map].
  - destruct (conn (heartbeat_request self)) as [[] |];
      cbn [fst snd app map]; auto.
  - now right.
Qed.

(** X16.  The heartbeat loop is not stopped by a failing send: whatever the
    connection does at each turn (absent, raising, replaced by a
    reconnect), no turn raises; each turn either sends a frame or prints
    the failure message, and then sleeps 60 seconds; and every frame sent
    has the task hb and an empty channel. *)
Theorem heartBeat_never_raises (turns : list WebSocket) :
  snd (heartBeat turns) = Ok tt /\
  length (fst (heartBeat turns)) = 2 * length turns /\
  (forall i, i < length turns ->
     nth_error (fst (heartBeat turns)) (2 * i + 1) = Some (Sleep 60)) /\
  (forall ef, In ef (fst (heartBeat turns)) ->
     ef = Sleep 60 \/
     ef = Performs (Print "HeartBeats Failed") \/
     exists r, ef = Performs (SendMessage r) /\
               r_task r = "hb"%string /\ r_channel r = ""%string).
Proof.
  induction turns as [| self rest (IHres & IHlen & IHsleep & IHin)].
  - cbn. repeat split; auto; [lia | contradiction].
  - cbn [heartBeat length].
    destruct (heartBeat_turn_cases self) as [-> | ->]; cbn [fst snd app];
      (split; [exact IHres |]); (split; [cbn [length]; lia |]);
      (split;
       [ intros [| i] Hi; [reflexivity |];
         replace (2 * S i + 1) with (S (S (2 * i + 1))) by lia;
         cbn [nth_error]; apply IHsleep; lia
       | intros ef [<- | [<- | Hin]]; auto ]).
    right. right. eexists. split; [reflexivity |]. split; reflexivity.
Qed.

(* ================================================================== *)
(** * Further properties of construction and reconnection               *)
(* ================================================================== *)

(** X17.  Whatever numbers the client is constructed with, the factory that
    [_create_connection] builds allows at most 300 retries and a delay
    bound of at least 5 seconds: [__init__] lowers [reconnect_max_tries] to
    300 and raises [reconnect_max_delay] to 5, and leaves values inside
    these bounds (and [connect_timeout]) as given. *)
Theorem reconnect_settings_clamped (tries delay timeout : Z) :
  let f := _create_connection (WebSocket_init tries delay timeout) in
  maxRetries f = Some (Z.min tries 300) /\
  maxDelay f = Z.max delay 5 /\
  retries f = 0%Z /\
  connect_timeout (WebSocket_init tries delay timeout) = timeout /\
  WebSocket_init (Z.min tries 300) (Z.max delay 5) timeout
  = WebSocket_init tries delay timeout.
Proof.
  unfold _create_connection, WebSocket_init,
    _maximum_reconnect_max_tries, _minimum_reconnect_max_delay.
  cbn [reconnect_max_tries reconnect_max_delay connect_timeout
         maxRetries maxDelay retries].
  destruct (Z.ltb_spec 300 tries), (Z.ltb_spec delay 5);
    repeat split; try (f_equal; lia);
    repeat match goal with
      | |- context [(?a <? ?b)%Z] => destruct (Z.ltb_spec a b)
      end; f_equal; lia.
Qed.

Section Reconnection.

Variable retry : SmartSocketClientFactory -> SmartSocketClientFactory.

(** What is assumed of [ReconnectingClientFactory.retry]: it counts the
    attempt and leaves the bound and the callbacks. *)
Hypothesis retry_counts :
  forall f,
    retries (retry f) = (retries f + 1)%Z /\
    maxRetries (retry f) = maxRetries f /\
    has_on_reconnect (retry f) = has_on_reconnect f /\
    has_on_noreconnect (retry f) = has_on_noreconnect f.

Lemma losses_nth (n : nat) :
  forall f k tr,
    has_on_reconnect f = true -> has_on_noreconnect f = true ->
    nth_error (losses retry n f) k = Some tr ->
    tr = (if (0 <? retries f + Z.of_nat k)%Z
          then [On_reconnect (retries f + Z.of_nat k)] else [])
         ++ [Retry]
         ++ match maxRetries f with
            | Some m => if (m <? retries f + Z.of_nat k + 1)%Z
                        then [On_noreconnect] else []
            | None => []
            end.
Proof.
  induction n as [| n IH]; intros f k tr Hrec Hno; [now destruct k |].
  destruct (retry_counts f) as (Hr & Hm & Hcb1 & Hcb2).
  cbn [losses]. destruct k as [| k]; cbn [nth_error].
  - intros [= <-]. unfold clientConnectionLost, send_noreconnect.
    cbn [snd]. rewrite Hr, Hm, Hcb2, Hrec, Hno.
    change (Z.of_nat 0) with 0%Z. now rewrite !Z.add_0_r.
  - intros Hk. cbn [clientConnectionLost fst] in Hk.
    apply IH in Hk; [| congruence | congruence].
    rewrite Hr, Hm in Hk. subst tr.
    replace (retries f + 1 + Z.of_nat k)%Z
      with (retries f + Z.of_nat (S k))%Z by lia.
    reflexivity.
Qed.

(** X18.  Over consecutive connection losses on a factory built by
    [_create_connection], the k-th loss (k = 1, 2, ...) first reports k - 1
    to [on_reconnect], except the first loss, which reports nothing, then
    retries, and calls [on_noreconnect] if and only if k exceeds
    [maxRetries]; [retry] is assumed to count each attempt. *)
Theorem losses_callbacks (s : WebSocket_settings) (n k : nat)
    (tr : list factory_effect) :
  nth_error (losses retry n (_create_connection s)) k = Some tr ->
  tr = (if (0 <? Z.of_nat k)%Z then [On_reconnect (Z.of_nat k)] else [])
       ++ [Retry]
       ++ (if (reconnect_max_tries s <? Z.of_nat k + 1)%Z
           then [On_noreconnect] else []).
Proof.
  intros H. apply losses_nth in H; try reflexivity.
  cbn [_create_connection retries maxRetries] in H.
  now rewrite !Z.add_0_l in H.
Qed.

End Reconnection.

Lemma counting_retry_counts (f : SmartSocketClientFactory) :
  retries (counting_retry f) = (retries f + 1)%Z /\
  maxRetries (counting_retry f) = maxRetries f /\
  has_on_reconnect (counting_retry f) = has_on_reconnect f /\
  has_on_noreconnect (counting_retry f) = has_on_noreconnect f.
Proof.
  repeat split.
Qed.

Lemma losses_callbacks_witness :
  nth_error (losses counting_retry 3 (_create_connection (WebSocket_init 1 60 30))) 1
  = Some [On_reconnect 1; Retry; On_noreconnect] /\
  [On_reconnect 1; Retry; On_noreconnect]
  = (if (0 <? Z.of_nat 1)%Z then [On_reconnect (Z.of_nat 1)] else [])
    ++ [Retry]
    ++ (if (reconnect_max_tries (WebSocket_init 1 60 30) <? Z.of_nat 1 + 1)%Z
        then [On_noreconnect] else []).
Proof.
  assert (H : nth_error (losses counting_retry 3
                           (_create_connection (WebSocket_init 1 60 30))) 1
              = Some [On_reconnect 1; Retry; On_noreconnect])
    by reflexivity.
  split; [exact H |].
  exact (@losses_callbacks counting_retry counting_retry_counts
           (WebSocket_init 1 60 30) 3 1 _ H).
Defined.

Lemma opens_after_first (n : nat) (has_on_open : bool) :
  connect_calls (opens n false has_on_open) = n.
Proof.
  induction n as [| n IH]; [reflexivity |].
  cbn [opens _on_open fst snd negb]. unfold connect_calls in *.
  rewrite !filter_app, !length_app, IH.
  destruct has_on_open; reflexivity.
Qed.

(** X19.  Over any number of opens of the connection, [_on_open] calls
    [connect()] again on every open but the first: n opens make n - 1
    calls, whether or not an [on_open] callback is set, and from the first
    open on [_is_first_connect] is false. *)
Theorem on_open_reconnects (n : nat) (has_on_open : bool) :
  connect_calls (opens n true has_on_open) = n - 1 /\
  (forall first, fst (_on_open first has_on_open) = false) /\
  snd (_on_open true has_on_open)
  = (if has_on_open then [Call_on_open] else []).
Proof.
  split; [| split; reflexivity].
  destruct n as [| n]; [reflexivity |].
  cbn [opens _on_open fst snd negb app]. unfold connect_calls.
  rewrite filter_app, length_app.
  fold (connect_calls (opens n false has_on_open)).
  rewrite opens_after_first. destruct has_on_open; cbn; lia.
Qed.

(* ================================================================== *)
(** * Further properties of the protocol object                         *)
(* ================================================================== *)

(** Closing undoes what opening set up: on a protocol object that
    was opened, [onClose] cancels the ping loop and the pong watchdog, after
    the callbacks ([on_error] only for an unclean close, and before
    [on_close]); it forgets both time stamps, so that a watchdog run on the
    closed object would not abort whatever the time and whatever pongs came
    before; and the ping loop never touches the pong time. *)
Lemma close_after_open (self : protocol_state) (t1 t2 : float)
    (has_on_open was_clean has_on_error has_on_close : bool)
    (pongs : list float) :
  let opened := fst (onOpen self t1 t2 has_on_open) in
  let answered :=
    mk_protocol_state (fold_left onPong pongs (stamps opened))
      (_next_ping opened) (_next_pong_check opened) in
  let closed := onClose answered was_clean has_on_error has_on_close in
  snd closed
  = (if negb was_clean && has_on_error then [Factory_on_error] else [])
    ++ (if has_on_close then [Factory_on_close] else [])
    ++ [Cancel "_next_ping"; Cancel "_next_pong_check"] /\
  (forall now,
     _loop_pong_check (stamps (fst closed)) now
     = [CallLater PING_INTERVAL "_loop_pong_check"]) /\
  _last_pong_time (stamps opened) = _last_pong_time (stamps self) /\
  _last_ping_time (stamps opened) = Some t1.
Proof.
  cbv zeta. unfold onClose, onOpen, pong_check, _loop_ping.
  cbn [fst snd stamps _next_ping _next_pong_check _last_pong_time
         _last_ping_time].
  repeat split.
  destruct was_clean, has_on_error; reflexivity.
Qed.
